(** * respwriter: a request-scoped decorator for dns.ResponseWriter

    A shallow embedding of the Go package [respwriter] ([isNil], the
    functional options, the decorator [RespWriter] and the handler factory
    [NewHandlerFunc]) and the properties of each.

    Go values are modelled as follows.
    - An interface value is either the nil interface or a dynamic type (of
      which the [reflect.Kind] is kept) with a value that may itself be the
      nil value of that type: [iface].
    - A Go [error] result is an [option error]; [None] is Go's [nil].
    - Code that has effects (the clock, the contexts, the transport behind
      the wrapped writer, the decorators allocated so far) runs in the
      monad [M] of state passing over [World], with panics. *)

From Stdlib Require Import ZArith Lia.
From stdpp Require Import base list strings numbers.

Local Open Scope string_scope.
Local Open Scope list_scope.
Local Open Scope Z_scope.

(** ** reflect.Kind and interface values *)

Module reflect.

(** The kinds of Go types, as enumerated by package reflect. *)
Inductive Kind : Set :=
| Invalid | Bool
| Int | Int8 | Int16 | Int32 | Int64
| Uint | Uint8 | Uint16 | Uint32 | Uint64 | Uintptr
| Float32 | Float64 | Complex64 | Complex128
| Array | Chan | Func | Interface | Map | Pointer | Slice
| String | Struct | UnsafePointer.

(** [reflect.Ptr] is the old name of [reflect.Pointer]. *)
Definition Ptr : Kind := Pointer.

(** The kinds on which [Value.IsNil] is defined (it panics on the others). *)
Definition nilable (k : Kind) : bool :=
  match k with
  | Chan | Func | Interface | Map | Pointer | Slice | UnsafePointer => true
  | _ => false
  end.

End reflect.

(** A value of a Go interface type.  [dyn k isnil v]: the dynamic type has
    kind [k]; [isnil] says that the dynamic value is the nil value of that
    type (a "typed nil"); [v] is what the model keeps of the value. *)
Inductive iface (A : Type) : Type :=
| nil_iface : iface A
| dyn (k : reflect.Kind) (isnil : bool) (v : A) : iface A.
Arguments nil_iface {A}.
Arguments dyn {A} k isnil v.

(** Only values of a nilable kind can be nil, and the dynamic type of an
    interface value is never itself an interface type. *)
Definition wf_iface {A} (i : iface A) : Prop :=
  match i with
  | nil_iface => True
  | dyn k isnil _ =>
      k <> reflect.Invalid /\ k <> reflect.Interface /\
      (isnil = true -> reflect.nilable k = true)
  end.

(** isnil.go:
<<
func isNil(i any) bool {
	if i == nil { return true }
	switch reflect.TypeOf(i).Kind() {
	case reflect.Ptr, reflect.Map, reflect.Chan, reflect.Slice, reflect.Func:
		return reflect.ValueOf(i).IsNil()
	}
	return false
}
>> *)
Definition isNil {A} (i : iface A) : bool :=
  match i with
  | nil_iface => true
  | dyn k isnil _ =>
      match k with
      | reflect.Pointer | reflect.Map | reflect.Chan
      | reflect.Slice | reflect.Func => isnil
      | _ => false
      end
  end.

(** Conversion to [any] of a value of a concrete pointer or func type,
    as done implicitly at a call [isNil(x)].  A nil pointer or func gives a
    non-nil interface holding a typed nil. *)
Definition any_of_ptr {A} (p : option A) : iface (option A) :=
  dyn reflect.Ptr (bool_decide (p = None)) p.
Definition any_of_func {A} (f : option A) : iface (option A) :=
  dyn reflect.Func (bool_decide (f = None)) f.

(** ** Errors *)

(** Go error values: package-level sentinels (compared by identity) and
    the wrappers built by [fmt.Errorf] with the verb [%w]; [Errorf text e]
    is the error whose message is [text] followed by the message of [e],
    and which unwraps to [e]. *)
Inductive error : Type :=
| sentinel (pkg name : string)
| Errorf (text : string) (wrapped : error).

(** [context.Canceled] and [context.DeadlineExceeded]. *)
Definition context_Canceled : error := sentinel "context" "Canceled".
Definition context_DeadlineExceeded : error := sentinel "context" "DeadlineExceeded".

(** Modelled from the spec: the sentinel [ErrInvalidParameter] is declared
    in a file of the package that is not among the sources; the spec calls
    it a distinguishable "invalid parameter" error kind. *)
Definition ErrInvalidParameter : error := sentinel "respwriter" "ErrInvalidParameter".

Definition error_eqb (a b : error) : bool :=
  match a, b with
  | sentinel p n, sentinel q m => String.eqb p q && String.eqb n m
  | _, _ => false
  end.

(** [errors.Is err target] for a sentinel target: walk the chain of
    wrapped errors. *)
Fixpoint errors_Is (err target : error) : bool :=
  match err with
  | sentinel _ _ => error_eqb err target
  | Errorf _ inner => errors_Is inner target
  end.

(** ** option.go: functional options *)

(** A [*slog.Logger] is a pointer; the model keeps the address. *)
Inductive slog_Logger : Set := logger_at (addr : nat).

(** <<
type generalOptions struct { withLogger *slog.Logger }
>> *)
Record generalOptions : Set := { withLogger : option slog_Logger }.

(** The dynamic type of the [interface{}] handed to an option.  The only
    target this package declares is [*generalOptions]; [other_target]
    stands for any other type a caller may pass. *)
Inductive target : Set := ptr_generalOptions | other_target.

(** What the pointer of that type points to. *)
Definition pointee (t : target) : Type :=
  match t with
  | ptr_generalOptions => generalOptions
  | other_target => unit
  end.

(** <<
type Option func(interface{})
>>
    a func value, possibly nil, that may update what its argument points
    to. *)
Definition Option : Type := option (forall t : target, pointee t -> pointee t).

(** <<
func applyOpts(opts interface{}, opt ...Option) {
	for _, o := range opt {
		if o == nil { continue }
		o(opts)
	}
}
>> *)
Fixpoint applyOpts (t : target) (opts : pointee t) (opt : list Option) : pointee t :=
  match opt with
  | [] => opts
  | None :: rest => applyOpts t opts rest
  | Some o :: rest => applyOpts t (o t opts) rest
  end.

(** <<
func generalDefaults() generalOptions { return generalOptions{} }
>> *)
Definition generalDefaults : generalOptions := {| withLogger := None |}.

(** <<
func getGeneralOpts(opt ...Option) generalOptions {
	opts := generalDefaults()
	applyOpts(&opts, opt...)
	return opts
}
>> *)
Definition getGeneralOpts (opt : list Option) : generalOptions :=
  applyOpts ptr_generalOptions generalDefaults opt.

(** <<
func WithLogger(l *slog.Logger) Option {
	return func(o interface{}) {
		if o, ok := o.( *generalOptions); ok {
			if !isNil(l) { o.withLogger = l }
		}
	}
}
>> *)
Definition WithLogger (l : option slog_Logger) : Option :=
  Some (fun t =>
    match t return pointee t -> pointee t with
    | ptr_generalOptions => fun o =>
        if negb (isNil (any_of_ptr l)) then {| withLogger := l |} else o
    | other_target => fun o => o
    end).

(** The options this package builds: a nil [Option], or [WithLogger l]. *)
Definition option_of (x : option (option slog_Logger)) : Option :=
  match x with
  | None => None
  | Some l => WithLogger l
  end.

(** The logger a sequence of such options leaves: the last one that is not
    nil, or the initial one. *)
Fixpoint last_logger (init : option slog_Logger)
    (xs : list (option (option slog_Logger))) : option slog_Logger :=
  match xs with
  | [] => init
  | Some (Some l) :: rest => last_logger (Some l) rest
  | _ :: rest => last_logger init rest
  end.

(** ** Results, contexts and the clock *)

(** The outcome of a call: a value, or a panic with its value. *)
Inductive Res (A : Type) : Type :=
| Val (a : A)
| Panic (v : string).
Arguments Val {A} a.
Arguments Panic {A} v.

(** The panic of the Go runtime on a method call through a nil interface or
    a nil pointer. *)
Definition nil_dereference : string :=
  "runtime error: invalid memory address or nil pointer dereference".

(** Why a context terminated.  [Err()] reports [context.Canceled] for the
    first cause and [context.DeadlineExceeded] for the second. *)
Inductive cause : Set := canceled | deadline_exceeded.

Definition cause_error (c : cause) : error :=
  match c with
  | canceled => context_Canceled
  | deadline_exceeded => context_DeadlineExceeded
  end.

(** The state of a cancellable context of package context (a [*cancelCtx]
    or [*timerCtx]): the context it was derived from ([None] for a child of
    [context.Background()]), what [Deadline()] reports, and why it has
    terminated ([None] as long as the context is live). *)
Record ctxCell : Type := {
  ctx_parent : option nat;
  ctx_deadline : option Z;
  ctx_err : option cause
}.

Definition with_err (e : option cause) (c : ctxCell) : ctxCell :=
  {| ctx_parent := ctx_parent c; ctx_deadline := ctx_deadline c; ctx_err := e |}.

(** The implementations of [context.Context] in the model: the background
    context (a struct value) and pointers to the cells of the store. *)
Inductive ctxImpl : Set := backgroundCtx | cancelCtx (id : nat).

Definition context_Context : Type := iface ctxImpl.

Definition context_Background : context_Context :=
  dyn reflect.Struct false backgroundCtx.

Definition ctx_at (id : nat) : context_Context :=
  dyn reflect.Pointer false (cancelCtx id).

(** A terminated parent terminates its live children with its own error.
    Parents are allocated before their children, so one pass in the order
    of allocation reaches every descendant. *)
Definition inherit (done : list ctxCell) (c : ctxCell) : ctxCell :=
  match ctx_err c, ctx_parent c with
  | None, Some p =>
      match done !! p with
      | Some pc => with_err (ctx_err pc) c
      | None => c
      end
  | _, _ => c
  end.

Fixpoint propagate_from (done rest : list ctxCell) : list ctxCell :=
  match rest with
  | [] => done
  | c :: rest' => propagate_from (done ++ [inherit done c]) rest'
  end.

Definition propagate (cells : list ctxCell) : list ctxCell :=
  propagate_from [] cells.

(** The timer of a live context fires once its deadline is reached. *)
Definition fire (now : Z) (c : ctxCell) : ctxCell :=
  match ctx_err c, ctx_deadline c with
  | None, Some d =>
      if d <=? now then with_err (Some deadline_exceeded) c else c
  | _, _ => c
  end.

Definition expire (now : Z) (cells : list ctxCell) : list ctxCell :=
  propagate (fire now <$> cells).

(** Explicit cancellation: a live context becomes [Canceled]; a terminated
    one keeps its error. *)
Definition cancel_cell (c : ctxCell) : ctxCell :=
  match ctx_err c with
  | None => with_err (Some canceled) c
  | Some _ => c
  end.

Definition cancel_in (id : nat) (cells : list ctxCell) : list ctxCell :=
  match cells !! id with
  | Some c => propagate (<[id := cancel_cell c]> cells)
  | None => cells
  end.

(** What a new child takes from its parent: the parent's cell, deadline
    and error. *)
Definition parent_view (cells : list ctxCell) (parent : context_Context)
  : Res (option nat * option Z * option cause) :=
  match parent with
  | nil_iface => Panic "cannot create context from nil parent"
  | dyn _ true _ => Panic nil_dereference
  | dyn _ false backgroundCtx => Val (None, None, None)
  | dyn _ false (cancelCtx p) =>
      match cells !! p with
      | Some pc => Val (Some p, ctx_deadline pc, ctx_err pc)
      | None => Panic nil_dereference
      end
  end.

(** [min] of a deadline the parent may have and the one asked for. *)
Definition earliest (pd : option Z) (d : Z) : Z :=
  match pd with
  | Some p => Z.min p d
  | None => d
  end.

(** ** dns.ResponseWriter and the world *)

(** [net.Addr], an interface: [None] is nil, else network and address. *)
Definition net_Addr : Type := option (string * string).

(** [dns.Msg]; the decorator never looks inside a message. *)
Record dns_Msg : Type := { msg_Id : Z; msg_Answer : list string }.

(** The calls that reach a transport-level writer. *)
Inductive Call : Type :=
| CallWriteMsg (m : option dns_Msg)
| CallWrite (b : list Byte.byte)
| CallRemoteAddr
| CallLocalAddr
| CallTsigStatus
| CallTsigTimersOnly (b : bool)
| CallHijack
| CallClose.

Section Respwriter.

(** The state of the transport behind the wrapped writers (connections,
    buffers): opaque to this package. *)
Context {T : Type}.

(** An implementation of the interface [dns.ResponseWriter] supplied by the
    transport, the kind of writer a decorator wraps: each method acts on
    the transport and may panic.  It has no access to the fields of a
    decorator, which are not exported. *)
Record WriterImpl : Type := {
  impl_LocalAddr : T -> Res net_Addr * T;
  impl_RemoteAddr : T -> Res net_Addr * T;
  impl_WriteMsg : option dns_Msg -> T -> Res (option error) * T;
  impl_Write : list Byte.byte -> T -> Res (Z * option error) * T;
  impl_Close : T -> Res (option error) * T;
  impl_TsigStatus : T -> Res (option error) * T;
  impl_TsigTimersOnly : bool -> T -> Res unit * T;
  impl_Hijack : T -> Res unit * T
}.

(** A [dns.ResponseWriter] value holding a writer of the transport. *)
Definition ResponseWriter : Type := iface WriterImpl.

(** <<
type RespWriter struct {
	underlying dns.ResponseWriter
	requestCtx context.Context
	logger *slog.Logger
}
>> *)
Record RespWriter : Type := {
  underlying : ResponseWriter;
  requestCtx : context_Context;
  logger : option slog_Logger
}.

(** The world: the clock (in nanoseconds), the store of contexts, the
    transport, the log of the calls made on transport-level writers, and
    the decorators allocated so far (a [*RespWriter] is an index). *)
Record World : Type := {
  now : Z;
  ctxs : list ctxCell;
  transport : T;
  calls : list Call;
  heap : list RespWriter
}.

Definition set_ctxs (cs : list ctxCell) (s : World) : World :=
  {| now := now s; ctxs := cs; transport := transport s;
     calls := calls s; heap := heap s |}.

Definition set_now (n : Z) (s : World) : World :=
  {| now := n; ctxs := ctxs s; transport := transport s;
     calls := calls s; heap := heap s |}.

Definition set_heap (h : list RespWriter) (s : World) : World :=
  {| now := now s; ctxs := ctxs s; transport := transport s;
     calls := calls s; heap := h |}.

Definition called (ev : Call) (t : T) (s : World) : World :=
  {| now := now s; ctxs := ctxs s; transport := t;
     calls := calls s ++ [ev]; heap := heap s |}.

(** Computations: state passing over the world; a panic keeps the world it
    happened in. *)
Definition M (A : Type) : Type := World -> Res A * World.

Definition ret {A} (a : A) : M A := fun s => (Val a, s).

Definition panic {A} (v : string) : M A := fun s => (Panic v, s).

Definition bind {A B} (m : M A) (f : A -> M B) : M B :=
  fun s =>
    match m s with
    | (Val a, s') => f a s'
    | (Panic v, s') => (Panic v, s')
    end.

(** [defer d; body]: [d] runs when [body] returns or panics; the outcome of
    [body] is kept unless [d] itself panics. *)
Definition defer {A} (d : M unit) (body : M A) : M A :=
  fun s =>
    let '(r, s') := body s in
    match d s' with
    | (Val _, s'') => (r, s'')
    | (Panic v, s'') => (Panic v, s'')
    end.

End Respwriter.

Arguments WriterImpl : clear implicits.
Arguments ResponseWriter : clear implicits.
Arguments RespWriter : clear implicits.
Arguments World : clear implicits.
Arguments M : clear implicits.

Notation "'let*' x ':=' c1 'in' c2" := (bind c1 (fun x => c2))
  (at level 10, x binder, c1 at level 100, c2 at level 200,
   format "'[v' 'let*'  x  ':='  c1  'in' '/' c2 ']'").

Section Operations.

Context {T : Type}.

Local Abbreviation M := (M T).
Local Abbreviation World := (World T).
Local Abbreviation ResponseWriter := (ResponseWriter T).
Local Abbreviation RespWriter := (RespWriter T).

(** *** Package context and the clock *)

(** [ctx.Err()]. *)
Definition Context_Err (ctx : context_Context) : M (option error) :=
  fun s =>
    match ctx with
    | nil_iface => (Panic nil_dereference, s)
    | dyn _ true _ => (Panic nil_dereference, s)
    | dyn _ false backgroundCtx => (Val None, s)
    | dyn _ false (cancelCtx id) =>
        match ctxs s !! id with
        | Some c => (Val (cause_error <$> ctx_err c), s)
        | None => (Panic nil_dereference, s)
        end
    end.

(** Whether a receive from [ctx.Done()] can proceed, as the first case of
    a [select] with a [default] asks: the channel of a cancellable context
    is closed exactly when the context has terminated; the background
    context has a nil channel, which is never ready. *)
Definition Context_Done (ctx : context_Context) : M bool :=
  let* e := Context_Err ctx in
  ret (bool_decide (e <> None)).

(** The [context.CancelFunc] of the context in cell [id]. *)
Definition cancel (id : nat) : M unit :=
  fun s => (Val tt, set_ctxs (cancel_in id (ctxs s)) s).

(** Allocation of a context derived from [parent]. *)
Definition new_ctx (parent : context_Context) (deadline : option Z)
  : M (context_Context * M unit) :=
  fun s =>
    match parent_view (ctxs s) parent with
    | Panic v => (Panic v, s)
    | Val (p, pd, pe) =>
        let d := match deadline with
                 | Some d => Some (earliest pd d)
                 | None => pd
                 end in
        let id := length (ctxs s) in
        let c := fire (now s) {| ctx_parent := p; ctx_deadline := d; ctx_err := pe |} in
        (Val (ctx_at id, cancel id), set_ctxs (ctxs s ++ [c]) s)
    end.

(** [context.WithCancel(parent)]. *)
Definition context_WithCancel (parent : context_Context)
  : M (context_Context * M unit) :=
  new_ctx parent None.

(** [context.WithTimeout(parent, timeout)], that is
    [WithDeadline(parent, time.Now().Add(timeout))]. *)
Definition context_WithTimeout (parent : context_Context) (timeout : Z)
  : M (context_Context * M unit) :=
  fun s => new_ctx parent (Some (now s + timeout)) s.

(** [time.Sleep(d)]: the clock advances and the timers that are due fire. *)
Definition time_Sleep (d : Z) : M unit :=
  fun s =>
    let n := now s + Z.max d 0 in
    (Val tt, set_now n (set_ctxs (expire n (ctxs s)) s)).

(** *** Calls through the interface dns.ResponseWriter *)

(** A method call on an interface value holding a transport-level writer:
    a nil interface panics; otherwise the method of the dynamic type runs
    on the transport, and the call is logged. *)
Definition invoke {A} (ev : Call) (w : ResponseWriter)
    (method : WriterImpl T -> T -> Res A * T) : M A :=
  fun s =>
    match w with
    | nil_iface => (Panic nil_dereference, s)
    | dyn _ _ impl =>
        let '(r, t) := method impl (transport s) in
        (r, called ev t s)
    end.

Definition ResponseWriter_LocalAddr (w : ResponseWriter) : M net_Addr :=
  invoke CallLocalAddr w impl_LocalAddr.
Definition ResponseWriter_RemoteAddr (w : ResponseWriter) : M net_Addr :=
  invoke CallRemoteAddr w impl_RemoteAddr.
Definition ResponseWriter_WriteMsg (w : ResponseWriter) (m : option dns_Msg)
  : M (option error) :=
  invoke (CallWriteMsg m) w (fun i => impl_WriteMsg i m).
Definition ResponseWriter_Write (w : ResponseWriter) (b : list Byte.byte)
  : M (Z * option error) :=
  invoke (CallWrite b) w (fun i => impl_Write i b).
Definition ResponseWriter_Close (w : ResponseWriter) : M (option error) :=
  invoke CallClose w impl_Close.
Definition ResponseWriter_TsigStatus (w : ResponseWriter) : M (option error) :=
  invoke CallTsigStatus w impl_TsigStatus.
Definition ResponseWriter_TsigTimersOnly (w : ResponseWriter) (b : bool) : M unit :=
  invoke (CallTsigTimersOnly b) w (fun i => impl_TsigTimersOnly i b).
Definition ResponseWriter_Hijack (w : ResponseWriter) : M unit :=
  invoke CallHijack w impl_Hijack.

(** *** respwriter.go: the decorator *)

(** Reading through a [*RespWriter]. *)
Definition deref (rw : nat) : M RespWriter :=
  fun s =>
    match heap s !! rw with
    | Some r => (Val r, s)
    | None => (Panic nil_dereference, s)
    end.

(** [&RespWriter{...}]: a new cell of the heap. *)
Definition alloc (r : RespWriter) : M nat :=
  fun s => (Val (length (heap s)), set_heap (heap s ++ [r]) s).

(** <<
func NewRespWriter(ctx context.Context, w dns.ResponseWriter, opt ...Option) *RespWriter {
	switch {
	case isNil(ctx):
		panic("nil context")
	case isNil(w):
		panic("nil dns.ResponseWriter")
	}
	opts := getGeneralOpts(opt...)
	return &RespWriter{requestCtx: ctx, logger: opts.withLogger, underlying: w}
}
>> *)
Definition NewRespWriter (ctx : context_Context) (w : ResponseWriter)
    (opt : list Option) : M nat :=
  if isNil ctx then panic "nil context"
  else if isNil w then panic "nil dns.ResponseWriter"
  else
    let opts := getGeneralOpts opt in
    alloc {| requestCtx := ctx; logger := withLogger opts; underlying := w |}.

(** <<
func (rw *RespWriter) WriteMsg(msg *dns.Msg) error {
	select {
	case <-rw.requestCtx.Done():
		return rw.requestCtx.Err()
	default:
		return rw.underlying.WriteMsg(msg)
	}
}
>> *)
Definition RespWriter_WriteMsg (rw : nat) (msg : option dns_Msg) : M (option error) :=
  let* r := deref rw in
  let* closed := Context_Done (requestCtx r) in
  if closed then Context_Err (requestCtx r)
  else ResponseWriter_WriteMsg (underlying r) msg.

(** <<
func (rw *RespWriter) Write([]byte) (int, error) {
	select {
	case <-rw.requestCtx.Done():
		return 0, rw.requestCtx.Err()
	default:
		return rw.underlying.Write([]byte{})
	}
}
>>
    The parameter has no name: the buffer of the caller is not used. *)
Definition RespWriter_Write (rw : nat) (_ : list Byte.byte) : M (Z * option error) :=
  let* r := deref rw in
  let* closed := Context_Done (requestCtx r) in
  if closed then
    let* e := Context_Err (requestCtx r) in
    ret (0, e)
  else ResponseWriter_Write (underlying r) [].

(** <<
func (rw *RespWriter) RemoteAddr() net.Addr { return rw.underlying.RemoteAddr() }
>> *)
Definition RespWriter_RemoteAddr (rw : nat) : M net_Addr :=
  let* r := deref rw in
  ResponseWriter_RemoteAddr (underlying r).

(** <<
func (rw *RespWriter) LocalAddr() net.Addr { return rw.underlying.LocalAddr() }
>> *)
Definition RespWriter_LocalAddr (rw : nat) : M net_Addr :=
  let* r := deref rw in
  ResponseWriter_LocalAddr (underlying r).

(** <<
func (rw *RespWriter) TsigStatus() error {
	select {
	case <-rw.requestCtx.Done():
		return rw.requestCtx.Err()
	default:
		return rw.underlying.TsigStatus()
	}
}
>> *)
Definition RespWriter_TsigStatus (rw : nat) : M (option error) :=
  let* r := deref rw in
  let* closed := Context_Done (requestCtx r) in
  if closed then Context_Err (requestCtx r)
  else ResponseWriter_TsigStatus (underlying r).

(** <<
func (rw *RespWriter) TsigTimersOnly(b bool) { rw.underlying.TsigTimersOnly(b) }
>> *)
Definition RespWriter_TsigTimersOnly (rw : nat) (b : bool) : M unit :=
  let* r := deref rw in
  ResponseWriter_TsigTimersOnly (underlying r) b.

(** <<
func (rw *RespWriter) Hijack() { rw.underlying.Hijack() }
>> *)
Definition RespWriter_Hijack (rw : nat) : M unit :=
  let* r := deref rw in
  ResponseWriter_Hijack (underlying r).

(** <<
func (rw *RespWriter) Close() error { return rw.underlying.Close() }
>> *)
Definition RespWriter_Close (rw : nat) : M (option error) :=
  let* r := deref rw in
  ResponseWriter_Close (underlying r).

(** <<
func (rw *RespWriter) Underlying() dns.ResponseWriter { return rw.underlying }
>> *)
Definition RespWriter_Underlying (rw : nat) : M ResponseWriter :=
  let* r := deref rw in
  ret (underlying r).

(** <<
func (rw *RespWriter) RequestContext() context.Context { return rw.requestCtx }
>> *)
Definition RespWriter_RequestContext (rw : nat) : M context_Context :=
  let* r := deref rw in
  ret (requestCtx r).

(** <<
func (rw *RespWriter) Logger() *slog.Logger { return rw.logger }
>> *)
Definition RespWriter_Logger (rw : nat) : M (option slog_Logger) :=
  let* r := deref rw in
  ret (logger r).

(** <<
func (rw *RespWriter) SetLogger(logger *slog.Logger) { rw.logger = logger }
>> *)
Definition RespWriter_SetLogger (rw : nat) (l : option slog_Logger) : M unit :=
  let* r := deref rw in
  fun s =>
    (Val tt,
     set_heap (<[rw := {| underlying := underlying r; requestCtx := requestCtx r;
                          logger := l |}]> (heap s)) s).

(** *** respwriter.go: the handler factory *)

(** The [dns.ResponseWriter] a handler is given: a writer of the transport,
    or a [*RespWriter]. *)
Inductive HandlerWriter : Type :=
| transport_writer (w : ResponseWriter)
| resp_writer (rw : nat).

(** [dns.HandlerFunc], a func value that may be nil. *)
Definition HandlerFunc : Type := option (HandlerWriter -> option dns_Msg -> M unit).

(** The call [h(w, r)] of a func value; calling a nil func panics. *)
Definition call_handler (h : HandlerFunc) (w : HandlerWriter) (r : option dns_Msg)
  : M unit :=
  match h with
  | Some f => f w r
  | None => panic nil_dereference
  end.

(** The handler [NewHandlerFunc] returns, as the transport calls it. *)
Definition AdapterFunc : Type := ResponseWriter -> option dns_Msg -> M unit.

(** <<
func NewHandlerFunc(requestTimeout time.Duration, h dns.HandlerFunc, opt ...Option) (dns.HandlerFunc, error) {
	const op = "handlers.NewRespWriterHandler"
	switch {
	case requestTimeout <= 0:
		return nil, fmt.Errorf("%s: invalid request timeout: %w", op, ErrInvalidParameter)
	case isNil(h):
		return nil, fmt.Errorf("%s: nil handler: %w", op, ErrInvalidParameter)
	}
	return func(w dns.ResponseWriter, r *dns.Msg) {
		ctx, cancel := context.WithTimeout(context.Background(), requestTimeout)
		defer cancel()
		wrappedWriter := NewRespWriter(ctx, w, opt...)
		h(wrappedWriter, r)
	}, nil
}
>> *)
Definition NewHandlerFunc (requestTimeout : Z) (h : HandlerFunc) (opt : list Option)
  : option AdapterFunc * option error :=
  let op := "handlers.NewRespWriterHandler" in
  if requestTimeout <=? 0 then
    (None, Some (Errorf (op ++ ": invalid request timeout: ")%string ErrInvalidParameter))
  else if isNil (any_of_func h) then
    (None, Some (Errorf (op ++ ": nil handler: ")%string ErrInvalidParameter))
  else
    (Some (fun w r =>
       let* '(ctx, cancel) := context_WithTimeout context_Background requestTimeout in
       defer cancel (
         let* wrappedWriter := NewRespWriter ctx w opt in
         call_handler h (resp_writer wrappedWriter) r)),
     None).

End Operations.

(** * isNil, with the panics of package reflect *)

(** [reflect.ValueOf(i).IsNil()]: defined on the nilable kinds; on any
    other kind, and on the zero [Value] that [ValueOf] gives for the nil
    interface, it panics with a [*reflect.ValueError]. *)
Definition Value_IsNil {A} (i : iface A) : Res bool :=
  match i with
  | nil_iface => Panic "reflect: call of reflect.Value.IsNil on zero Value"
  | dyn k isnil _ =>
      if reflect.nilable k then Val isnil
      else Panic "reflect: call of reflect.Value.IsNil on a Value that cannot be nil"
  end.

(** [isNil] once more, now with the call of [IsNil] as package reflect has
    it, so that a panic of that call would show:
<<
	if i == nil { return true }
	switch reflect.TypeOf(i).Kind() {
	case reflect.Ptr, reflect.Map, reflect.Chan, reflect.Slice, reflect.Func:
		return reflect.ValueOf(i).IsNil()
	}
	return false
>> *)
Definition isNil_checked {A} (i : iface A) : Res bool :=
  match i with
  | nil_iface => Val true
  | dyn k _ _ =>
      match k with
      | reflect.Pointer | reflect.Map | reflect.Chan
      | reflect.Slice | reflect.Func => Value_IsNil i
      | _ => Val false
      end
  end.

(** * What the properties speak of *)

Section Vocabulary.

Context {T : Type}.

Local Abbreviation M := (M T).
Local Abbreviation World := (World T).
Local Abbreviation ResponseWriter := (ResponseWriter T).
Local Abbreviation RespWriter := (RespWriter T).

(** The context has terminated, for cause [c], in world [s]. *)
Definition terminated (s : World) (ctx : context_Context) (c : cause) : Prop :=
  match ctx with
  | dyn _ false (cancelCtx id) =>
      exists cell, ctxs s !! id = Some cell /\ ctx_err cell = Some c
  | _ => False
  end.

(** The context is live in world [s]. *)
Definition live (s : World) (ctx : context_Context) : Prop :=
  match ctx with
  | dyn _ false backgroundCtx => True
  | dyn _ false (cancelCtx id) =>
      exists cell, ctxs s !! id = Some cell /\ ctx_err cell = None
  | _ => False
  end.

(** What a call delegated to the writer of the transport gives: the
    outcome of the method, in the world where the transport has moved on
    and the call is logged. *)
Definition delegated {A} (ev : Call) (out : Res A * T) (s : World) : Res A * World :=
  (fst out, called ev (snd out) s).

(** The public methods of [*RespWriter]. *)
Inductive Op : Type :=
| OpWriteMsg (m : option dns_Msg)
| OpWrite (b : list Byte.byte)
| OpRemoteAddr
| OpLocalAddr
| OpTsigStatus
| OpTsigTimersOnly (b : bool)
| OpHijack
| OpClose
| OpUnderlying
| OpRequestContext
| OpLogger
| OpSetLogger (l : option slog_Logger).

Definition world_after {A} (m : M A) (s : World) : World := snd (m s).

(** The world after the call of a method on the decorator at [rw]. *)
Definition perform (rw : nat) (op : Op) (s : World) : World :=
  match op with
  | OpWriteMsg m => world_after (RespWriter_WriteMsg rw m) s
  | OpWrite b => world_after (RespWriter_Write rw b) s
  | OpRemoteAddr => world_after (RespWriter_RemoteAddr rw) s
  | OpLocalAddr => world_after (RespWriter_LocalAddr rw) s
  | OpTsigStatus => world_after (RespWriter_TsigStatus rw) s
  | OpTsigTimersOnly b => world_after (RespWriter_TsigTimersOnly rw b) s
  | OpHijack => world_after (RespWriter_Hijack rw) s
  | OpClose => world_after (RespWriter_Close rw) s
  | OpUnderlying => world_after (RespWriter_Underlying rw) s
  | OpRequestContext => world_after (RespWriter_RequestContext rw) s
  | OpLogger => world_after (RespWriter_Logger rw) s
  | OpSetLogger l => world_after (RespWriter_SetLogger rw l) s
  end.

(** The world after a sequence of calls, each on some decorator. *)
Definition perform_all (ops : list (nat * Op)) (s : World) : World :=
  foldl (fun s x => perform x.1 x.2 s) s ops.

(** The logger last passed to [SetLogger] on [rw] in [ops], or [init]. *)
Fixpoint logger_after (rw : nat) (init : option slog_Logger) (ops : list (nat * Op))
  : option slog_Logger :=
  match ops with
  | [] => init
  | (q, OpSetLogger l) :: rest =>
      logger_after rw (if decide (q = rw) then l else init) rest
  | _ :: rest => logger_after rw init rest
  end.

Definition with_logger (l : option slog_Logger) (r : RespWriter) : RespWriter :=
  {| underlying := underlying r; requestCtx := requestCtx r; logger := l |}.

(** The context a request gets: a child of the background context, with
    the deadline [timeout] from now. *)
Definition request_cell (s : World) (timeout : Z) : ctxCell :=
  {| ctx_parent := None; ctx_deadline := Some (now s + timeout); ctx_err := None |}.

(** The decorator a request gets. *)
Definition request_writer (s : World) (w : ResponseWriter) (opt : list Option)
  : RespWriter :=
  {| underlying := w; requestCtx := ctx_at (length (ctxs s));
     logger := withLogger (getGeneralOpts opt) |}.

(** The world in which the inner handler starts. *)
Definition request_world (s : World) (timeout : Z) (w : ResponseWriter)
    (opt : list Option) : World :=
  set_heap (heap s ++ [request_writer s w opt])
    (set_ctxs (ctxs s ++ [request_cell s timeout]) s).

(** The call a method makes on the wrapped writer when it makes one.
    [Write] passes the empty buffer; the accessors make no call. *)
Definition event_of (op : Op) : option Call :=
  match op with
  | OpWriteMsg m => Some (CallWriteMsg m)
  | OpWrite _ => Some (CallWrite [])
  | OpRemoteAddr => Some CallRemoteAddr
  | OpLocalAddr => Some CallLocalAddr
  | OpTsigStatus => Some CallTsigStatus
  | OpTsigTimersOnly b => Some (CallTsigTimersOnly b)
  | OpHijack => Some CallHijack
  | OpClose => Some CallClose
  | OpUnderlying | OpRequestContext | OpLogger | OpSetLogger _ => None
  end.

(** The methods that [select] on the request context before they call the
    wrapped writer. *)
Definition gated (op : Op) : bool :=
  match op with
  | OpWriteMsg _ | OpWrite _ | OpTsigStatus => true
  | _ => false
  end.

(** The call a method makes once the request context has terminated. *)
Definition event_after_termination (op : Op) : option Call :=
  if gated op then None else event_of op.

(** A handler that sleeps for [d], then writes [m] and drops the error of
    the write, as the handler of TestNewRespWriterHandler does
    ([time.Sleep(200 * time.Millisecond)], then [_ = w.WriteMsg(m)]). *)
Definition sleep_then_write (d : Z) (m : option dns_Msg)
  : HandlerWriter -> option dns_Msg -> M unit :=
  fun w _ =>
    let* _ := time_Sleep d in
    match w with
    | resp_writer rw => let* _ := RespWriter_WriteMsg rw m in ret tt
    | transport_writer w => let* _ := ResponseWriter_WriteMsg w m in ret tt
    end.

End Vocabulary.

(** * The writers, handlers and worlds of the tests *)

(** The writer of the tests, [mockDNSResponseWriter]: every method
    succeeds; [Write] reports 0 bytes; the addresses are 127.0.0.1. *)
Definition mockDNSResponseWriter : WriterImpl unit := {|
  impl_LocalAddr := fun t => (Val (Some ("ip", "127.0.0.1")), t);
  impl_RemoteAddr := fun t => (Val (Some ("ip", "127.0.0.1")), t);
  impl_WriteMsg := fun _ t => (Val None, t);
  impl_Write := fun _ t => (Val (0, None), t);
  impl_Close := fun t => (Val None, t);
  impl_TsigStatus := fun t => (Val None, t);
  impl_TsigTimersOnly := fun _ t => (Val tt, t);
  impl_Hijack := fun t => (Val tt, t)
|}.

(** [w := new(mockDNSResponseWriter)], as a [dns.ResponseWriter]. *)
Definition mock_writer : ResponseWriter unit :=
  dyn reflect.Ptr false mockDNSResponseWriter.

Definition testLogger : option slog_Logger := Some (logger_at 1).

(** The world at the start of a test: time 0, nothing allocated. *)
Definition initial {T} (t : T) : World T :=
  {| now := 0; ctxs := []; transport := t; calls := []; heap := [] |}.

Definition millisecond : Z := 1000000.

(** What a test looks at: the outcome, and the calls that reached the
    wrapped writer. *)
Definition observe {T A} (out : Res A * World T) : Res A * list Call :=
  (fst out, calls (snd out)).

(** The handler of TestNewRespWriterHandler, success-req-timeout: it sleeps
    200ms, writes, and hands the error of the write to [seen]. *)
Definition sleepy_handler (seen : option error -> M unit unit)
  : @HandlerFunc unit :=
  Some (fun w req =>
    let* _ := time_Sleep (200 * millisecond) in
    match w with
    | resp_writer rw =>
        let* e := RespWriter_WriteMsg rw req in
        seen e
    | transport_writer w =>
        let* e := ResponseWriter_WriteMsg w req in
        seen e
    end).

(** A handler that writes one message and returns. *)
Definition replying_handler (w : @HandlerWriter unit) (req : option dns_Msg)
  : M unit unit :=
  match w with
  | resp_writer rw => let* _ := RespWriter_WriteMsg rw req in ret tt
  | transport_writer w => let* _ := ResponseWriter_WriteMsg w req in ret tt
  end.

(** A writer that keeps the buffers it is given and reports their
    lengths, as a connection does. *)
Definition recording_writer : WriterImpl (list (list Byte.byte)) := {|
  impl_LocalAddr := fun t => (Val None, t);
  impl_RemoteAddr := fun t => (Val None, t);
  impl_WriteMsg := fun _ t => (Val None, t);
  impl_Write := fun b t => (Val (Z.of_nat (length b), None), t ++ [b]);
  impl_Close := fun t => (Val None, t);
  impl_TsigStatus := fun t => (Val None, t);
  impl_TsigTimersOnly := fun _ t => (Val tt, t);
  impl_Hijack := fun t => (Val tt, t)
|}.

Definition recorder : ResponseWriter (list (list Byte.byte)) :=
  dyn reflect.Ptr false recording_writer.

Definition cancelled_cell : ctxCell :=
  {| ctx_parent := None; ctx_deadline := None; ctx_err := Some canceled |}.

Definition mock_decorator (ctx : context_Context) : RespWriter unit :=
  {| underlying := mock_writer; requestCtx := ctx; logger := testLogger |}.

(** The world of the tests named context-done: a decorator over the writer
    of the tests, built with a cancellable context that is then cancelled. *)
Definition cancelled_world : World unit :=
  world_after
    (let* '(ctx, cancel) := context_WithCancel context_Background in
     let* respWriter := NewRespWriter ctx mock_writer [WithLogger testLogger] in
     cancel)
    (initial tt).

(** The world of the tests named success: a decorator over the writer of
    the tests, built with the background context. *)
Definition live_world : World unit :=
  world_after
    (NewRespWriter context_Background mock_writer [WithLogger testLogger])
    (initial tt).


(** * Properties *)

(** ** isNil *)

Lemma isNil_nil_iface {A} : isNil (@nil_iface A) = true.
Proof. reflexivity. Qed.

(** [isNil] is true exactly for the nil interface and for a typed nil of
    one of the five kinds it inspects. *)
Lemma isNil_true_iff {A} (i : iface A) :
  isNil i = true <->
  i = nil_iface \/
  exists k v, i = dyn k true v /\
    k ∈ [reflect.Ptr; reflect.Map; reflect.Chan; reflect.Slice; reflect.Func].
Proof.
  split.
  - destruct i as [|k n v]; [by left|]. intros H. right. exists k, v.
    destruct k; simpl in H; try discriminate; subst n;
      (split; [reflexivity | unfold reflect.Ptr; repeat constructor]).
  - intros [-> | (k & v & -> & Hk)]; [reflexivity|].
    repeat (apply elem_of_cons in Hk as [-> | Hk]; [reflexivity|]).
    by apply elem_of_nil in Hk.
Qed.

(** What [isNil] lets through: among well-formed values, a typed nil is not
    seen only when it is a nil [unsafe.Pointer], a kind the function does
    not list (and one that cannot carry methods). *)
Lemma isNil_false_typed_nil {A} k (v : A) :
  wf_iface (dyn k true v) -> isNil (dyn k true v) = false ->
  k = reflect.UnsafePointer.
Proof.
  intros (_ & Hi & Hn) H. specialize (Hn eq_refl).
  destruct k; simpl in *; try discriminate; congruence.
Qed.

(** A value that passed the nil check carries its methods. *)
Lemma isNil_false_dyn {A} (i : iface A) :
  isNil i = false -> exists k n v, i = dyn k n v.
Proof. destruct i as [|k n v]; [discriminate | eauto]. Qed.

Lemma isNil_any_of_func {A} (f : option A) :
  isNil (any_of_func f) = bool_decide (f = None).
Proof. reflexivity. Qed.

Lemma isNil_any_of_ptr {A} (p : option A) :
  isNil (any_of_ptr p) = bool_decide (p = None).
Proof. reflexivity. Qed.

(** ** The store of contexts *)

Lemma inherit_settled (done : list ctxCell) (c : ctxCell) :
  ctx_err c <> None \/ ctx_parent c = None -> inherit done c = c.
Proof.
  unfold inherit. intros [H | H].
  - destruct (ctx_err c); [reflexivity | congruence].
  - rewrite H. by destruct (ctx_err c).
Qed.

Lemma propagate_from_length (rest done : list ctxCell) :
  length (propagate_from done rest) = (length done + length rest)%nat.
Proof.
  revert done. induction rest as [|c rest IH]; intros done; simpl.
  - lia.
  - rewrite IH, length_app. simpl. lia.
Qed.

Lemma propagate_from_lookup_done (rest done : list ctxCell) (i : nat) :
  (i < length done)%nat -> propagate_from done rest !! i = done !! i.
Proof.
  revert done. induction rest as [|c rest IH]; intros done Hi; simpl.
  - reflexivity.
  - rewrite IH by (rewrite length_app; simpl; lia).
    by apply lookup_app_l.
Qed.

(** Propagation leaves alone the cells that have terminated already and
    the children of the background context. *)
Lemma propagate_from_lookup_settled (rest done : list ctxCell) (i : nat) (c : ctxCell) :
  rest !! i = Some c ->
  ctx_err c <> None \/ ctx_parent c = None ->
  propagate_from done rest !! (length done + i)%nat = Some c.
Proof.
  revert done i. induction rest as [|c0 rest IH]; intros done i Hi Hc.
  - discriminate.
  - destruct i as [|i]; simpl in *.
    + injection Hi as ->. rewrite inherit_settled by done.
      rewrite propagate_from_lookup_done by (rewrite length_app; simpl; lia).
      rewrite Nat.add_0_r. apply list_lookup_middle. reflexivity.
    + specialize (IH (done ++ [inherit done c0]) i Hi Hc).
      rewrite length_app in IH. simpl in IH.
      replace (length done + S i)%nat with (length done + 1 + i)%nat by lia.
      exact IH.
Qed.

Lemma propagate_length (cells : list ctxCell) :
  length (propagate cells) = length cells.
Proof. unfold propagate. by rewrite propagate_from_length. Qed.

Lemma propagate_lookup_settled (cells : list ctxCell) (i : nat) (c : ctxCell) :
  cells !! i = Some c ->
  ctx_err c <> None \/ ctx_parent c = None ->
  propagate cells !! i = Some c.
Proof. intros. by apply (propagate_from_lookup_settled cells [] i c). Qed.

(** Cancelling a live context makes it [canceled]. *)
Lemma cancel_in_live (cells : list ctxCell) (id : nat) (c : ctxCell) :
  cells !! id = Some c -> ctx_err c = None ->
  cancel_in id cells !! id = Some (with_err (Some canceled) c).
Proof.
  intros Hc He. unfold cancel_in. rewrite Hc.
  apply propagate_lookup_settled.
  - unfold cancel_cell. rewrite He.
    apply list_lookup_insert_eq. by eapply lookup_lt_Some.
  - by left.
Qed.

(** Termination is permanent: cancelling a terminated context changes
    nothing for it. *)
Lemma cancel_in_terminated (cells : list ctxCell) (id i : nat) (c : ctxCell) :
  cells !! i = Some c -> ctx_err c <> None ->
  cancel_in id cells !! i = Some c.
Proof.
  intros Hc He. unfold cancel_in.
  destruct (cells !! id) as [c'|] eqn:Hid; [|done].
  apply propagate_lookup_settled; [|by left].
  destruct (decide (id = i)) as [->|Hne].
  - rewrite Hc in Hid. injection Hid as <-.
    unfold cancel_cell. destruct (ctx_err c) eqn:E; [|congruence].
    rewrite list_insert_id; done.
  - by rewrite list_lookup_insert_ne.
Qed.

(** A child of the background context is not affected by the cancellation
    of any other context. *)
Lemma cancel_in_other_root (cells : list ctxCell) (id i : nat) (c : ctxCell) :
  id <> i -> cells !! i = Some c -> ctx_parent c = None ->
  cancel_in id cells !! i = Some c.
Proof.
  intros Hne Hc Hp. unfold cancel_in.
  destruct (cells !! id) as [c'|] eqn:Hid; [|done].
  apply propagate_lookup_settled; [|by right].
  by rewrite list_lookup_insert_ne.
Qed.

(** Once the clock has reached the deadline of a context, it has
    terminated; it is [deadline_exceeded] if it was live until then. *)
Lemma expire_due (cells : list ctxCell) (n : Z) (id : nat) (c : ctxCell) (d : Z) :
  cells !! id = Some c -> ctx_err c = None -> ctx_deadline c = Some d -> d <= n ->
  expire n cells !! id = Some (with_err (Some deadline_exceeded) c).
Proof.
  intros Hc He Hd Hle. unfold expire.
  apply propagate_lookup_settled; [|by left].
  rewrite list_lookup_fmap, Hc. simpl. unfold fire.
  rewrite He, Hd. by rewrite (Zle_imp_le_bool _ _ Hle).
Qed.

Lemma expire_terminated (cells : list ctxCell) (n : Z) (i : nat) (c : ctxCell) :
  cells !! i = Some c -> ctx_err c <> None -> expire n cells !! i = Some c.
Proof.
  intros Hc He. unfold expire.
  apply propagate_lookup_settled; [|by left].
  rewrite list_lookup_fmap, Hc. simpl. unfold fire.
  destruct (ctx_err c); [done | congruence].
Qed.

(** ** Functional options *)

Lemma applyOpts_app (t : target) (o : pointee t) (xs ys : list Option) :
  applyOpts t o (xs ++ ys) = applyOpts t (applyOpts t o xs) ys.
Proof.
  revert o. induction xs as [|[x|] xs IH]; intros o; simpl; auto.
Qed.

Lemma applyOpts_nil_skipped (t : target) (o : pointee t) (xs ys : list Option) :
  applyOpts t o (xs ++ None :: ys) = applyOpts t o (xs ++ ys).
Proof. by rewrite !applyOpts_app. Qed.

Lemma WithLogger_some (o : generalOptions) (l : slog_Logger) :
  applyOpts ptr_generalOptions o [WithLogger (Some l)] = {| withLogger := Some l |}.
Proof. reflexivity. Qed.

Lemma WithLogger_nil (o : generalOptions) :
  applyOpts ptr_generalOptions o [WithLogger None] = o.
Proof. reflexivity. Qed.

Lemma applyOpts_last_logger (o : generalOptions) (xs : list (option (option slog_Logger))) :
  withLogger (applyOpts ptr_generalOptions o (option_of <$> xs))
  = last_logger (withLogger o) xs.
Proof.
  revert o. induction xs as [|[[l|]|] xs IH]; intros o; simpl; auto.
Qed.

(** C8. Options are applied in order (applying [xs ++ ys] is applying [xs],
    then [ys]); a nil option is skipped wherever it stands; a later option
    overrides the earlier ones for the field it sets (after any options, a
    final [WithLogger b] with [b] not nil leaves logger [b], and a sequence
    of [WithLogger] and nil options leaves the last logger that is not
    nil); [WithLogger nil] changes nothing and so does not clear a logger
    set before; [WithLogger a] then [WithLogger b] gives [b]. *)
Theorem applyOpts_in_order_skips_nil_later_wins :
  (forall (t : target) (o : pointee t) (xs ys : list Option),
     applyOpts t o (xs ++ ys) = applyOpts t (applyOpts t o xs) ys) /\
  (forall (t : target) (o : pointee t) f, applyOpts t o [Some f] = f t o) /\
  (forall (t : target) (o : pointee t) (xs ys : list Option),
     applyOpts t o (xs ++ None :: ys) = applyOpts t o (xs ++ ys)) /\
  (forall (o : generalOptions) (xs : list Option) (b : slog_Logger),
     withLogger (applyOpts ptr_generalOptions o (xs ++ [WithLogger (Some b)]))
     = Some b) /\
  (forall (o : generalOptions) (xs : list (option (option slog_Logger))),
     withLogger (applyOpts ptr_generalOptions o (option_of <$> xs))
     = last_logger (withLogger o) xs) /\
  (forall (o : generalOptions) (xs : list Option),
     applyOpts ptr_generalOptions o (xs ++ [WithLogger None])
     = applyOpts ptr_generalOptions o xs) /\
  (forall a : slog_Logger,
     getGeneralOpts [WithLogger (Some a); WithLogger None]
     = {| withLogger := Some a |}) /\
  (forall a b : slog_Logger,
     getGeneralOpts [WithLogger (Some a); WithLogger (Some b)]
     = {| withLogger := Some b |}).
Proof.
  split; [apply applyOpts_app|].
  split; [reflexivity|].
  split; [apply applyOpts_nil_skipped|].
  split; [intros o xs b; by rewrite applyOpts_app, WithLogger_some|].
  split; [apply applyOpts_last_logger|].
  split; [intros o xs; by rewrite applyOpts_app, WithLogger_nil|].
  split; reflexivity.
Qed.

(** ** The decorator *)

Section Decorator.

Context {T : Type}.

Local Abbreviation M := (M T).
Local Abbreviation World := (World T).
Local Abbreviation ResponseWriter := (ResponseWriter T).
Local Abbreviation RespWriter := (RespWriter T).

Lemma Context_Err_terminated (s : World) (ctx : context_Context) (c : cause) :
  terminated s ctx c -> Context_Err ctx s = (Val (Some (cause_error c)), s).
Proof.
  destruct ctx as [|k [] [|id]]; simpl; try tauto.
  intros (cell & -> & ->). reflexivity.
Qed.

Lemma Context_Err_live (s : World) (ctx : context_Context) :
  live s ctx -> Context_Err ctx s = (Val None, s).
Proof.
  destruct ctx as [|k [] [|id]]; simpl; try tauto.
  intros (cell & -> & ->). reflexivity.
Qed.

Lemma Context_Done_terminated (s : World) (ctx : context_Context) (c : cause) :
  terminated s ctx c -> Context_Done ctx s = (Val true, s).
Proof.
  intros H. unfold Context_Done, bind. by rewrite (Context_Err_terminated s ctx c H).
Qed.

Lemma Context_Done_live (s : World) (ctx : context_Context) :
  live s ctx -> Context_Done ctx s = (Val false, s).
Proof.
  intros H. unfold Context_Done, bind. by rewrite (Context_Err_live s ctx H).
Qed.

(** A context is never both live and terminated. *)
Lemma live_not_terminated (s : World) (ctx : context_Context) (c : cause) :
  live s ctx -> terminated s ctx c -> False.
Proof.
  destruct ctx as [|k [] [|id]]; simpl; try tauto.
  intros (cell & H1 & H2) (cell' & H3 & H4). congruence.
Qed.

Lemma invoke_dyn {A} (ev : Call) k n (impl : WriterImpl T)
    (method : WriterImpl T -> T -> Res A * T) (s : World) :
  invoke ev (dyn k n impl) method s = delegated ev (method impl (transport s)) s.
Proof. unfold invoke, delegated. by destruct (method impl (transport s)). Qed.

(** Closes a goal that a call through the interface is the delegated call. *)
Ltac by_invoke :=
  unfold ResponseWriter_LocalAddr, ResponseWriter_RemoteAddr,
    ResponseWriter_WriteMsg, ResponseWriter_Write, ResponseWriter_Close,
    ResponseWriter_TsigStatus, ResponseWriter_TsigTimersOnly,
    ResponseWriter_Hijack;
  rewrite invoke_dyn; reflexivity.

(** C1. When the request context of a decorator has terminated at the time
    of the call, [WriteMsg], [Write] and [TsigStatus] return the error of
    the context ([context.Canceled] for a cancellation,
    [context.DeadlineExceeded] for a deadline that has passed), [Write]
    with a count of 0, and the world is as before: the transport has not
    moved and no call on the wrapped writer is logged. *)
Theorem gated_methods_refuse_after_termination
    (s : World) (rw : nat) (r : RespWriter) (c : cause)
    (msg : option dns_Msg) (b : list Byte.byte) :
  heap s !! rw = Some r ->
  terminated s (requestCtx r) c ->
  RespWriter_WriteMsg rw msg s = (Val (Some (cause_error c)), s) /\
  RespWriter_Write rw b s = (Val (0, Some (cause_error c)), s) /\
  RespWriter_TsigStatus rw s = (Val (Some (cause_error c)), s) /\
  cause_error canceled = context_Canceled /\
  cause_error deadline_exceeded = context_DeadlineExceeded.
Proof.
  intros Hrw Hterm.
  pose proof (Context_Done_terminated _ _ _ Hterm) as Hdone.
  pose proof (Context_Err_terminated _ _ _ Hterm) as Herr.
  unfold RespWriter_WriteMsg, RespWriter_Write, RespWriter_TsigStatus, bind, deref, ret.
  rewrite Hrw, Hdone, Herr. auto.
Qed.

(** The buffer handed to [Write] plays no part: while the context is live,
    the wrapped writer is given the empty buffer. *)
Lemma Write_live (s : World) (rw : nat) (r : RespWriter) (b : list Byte.byte) :
  heap s !! rw = Some r ->
  live s (requestCtx r) ->
  RespWriter_Write rw b s = ResponseWriter_Write (underlying r) [] s.
Proof.
  intros Hrw Hlive.
  unfold RespWriter_Write, bind, deref.
  by rewrite Hrw, (Context_Done_live _ _ Hlive).
Qed.

(** C6. While the request context is live, [WriteMsg(m)] is the call
    [WriteMsg(m)] on the wrapped writer and [TsigStatus()] is its
    [TsigStatus()]: same outcome, and the call is made exactly once.  With
    a wrapped writer whose [WriteMsg] always succeeds, [WriteMsg] returns
    no error. *)
Theorem gated_methods_delegate_while_live
    (s : World) (rw : nat) (r : RespWriter) k n (impl : WriterImpl T)
    (m : option dns_Msg) :
  heap s !! rw = Some r ->
  underlying r = dyn k n impl ->
  live s (requestCtx r) ->
  RespWriter_WriteMsg rw m s
    = delegated (CallWriteMsg m) (impl_WriteMsg impl m (transport s)) s /\
  RespWriter_TsigStatus rw s
    = delegated CallTsigStatus (impl_TsigStatus impl (transport s)) s /\
  ((forall m' t, impl_WriteMsg impl m' t = (Val None, t)) ->
   RespWriter_WriteMsg rw m s = (Val None, called (CallWriteMsg m) (transport s) s)).
Proof.
  intros Hrw Hu Hlive.
  pose proof (Context_Done_live _ _ Hlive) as Hdone.
  assert (Hw : RespWriter_WriteMsg rw m s
    = delegated (CallWriteMsg m) (impl_WriteMsg impl m (transport s)) s).
  { unfold RespWriter_WriteMsg, bind, deref. rewrite Hrw, Hdone, Hu.
    by_invoke. }
  split; [exact Hw|]. split.
  - unfold RespWriter_TsigStatus, bind, deref. rewrite Hrw, Hdone, Hu.
    by_invoke.
  - intros Hok. rewrite Hw, Hok. reflexivity.
Qed.

(** C5. Whatever the state of the request context (live, terminated, or
    any other), [RemoteAddr], [LocalAddr], [TsigTimersOnly], [Hijack] and
    [Close] are the same calls on the wrapped writer: same outcome, the
    call made exactly once.  The context store does not occur in the
    result. *)
Theorem ungated_methods_always_delegate
    (s : World) (rw : nat) (r : RespWriter) k n (impl : WriterImpl T) (b : bool) :
  heap s !! rw = Some r ->
  underlying r = dyn k n impl ->
  RespWriter_RemoteAddr rw s
    = delegated CallRemoteAddr (impl_RemoteAddr impl (transport s)) s /\
  RespWriter_LocalAddr rw s
    = delegated CallLocalAddr (impl_LocalAddr impl (transport s)) s /\
  RespWriter_TsigTimersOnly rw b s
    = delegated (CallTsigTimersOnly b) (impl_TsigTimersOnly impl b (transport s)) s /\
  RespWriter_Hijack rw s
    = delegated CallHijack (impl_Hijack impl (transport s)) s /\
  RespWriter_Close rw s
    = delegated CallClose (impl_Close impl (transport s)) s.
Proof.
  intros Hrw Hu.
  unfold RespWriter_RemoteAddr, RespWriter_LocalAddr, RespWriter_TsigTimersOnly,
    RespWriter_Hijack, RespWriter_Close, bind, deref.
  rewrite Hrw, Hu.
  repeat split; by_invoke.
Qed.

(** C4. [NewRespWriter] panics, and allocates nothing, when the context is
    nil ("nil context") or else when the writer is nil
    ("nil dns.ResponseWriter"); in particular for the nil interface in
    either place.  When both are there it returns a pointer to a new
    decorator that stores exactly that context and that writer (and the
    logger of the options), as [Underlying()] and [RequestContext()]
    then report. *)
Theorem NewRespWriter_panics_on_nil_else_stores
    (s : World) (ctx : context_Context) (w : ResponseWriter) (opt : list Option) :
  (isNil ctx = true -> NewRespWriter ctx w opt s = (Panic "nil context", s)) /\
  (isNil ctx = false -> isNil w = true ->
   NewRespWriter ctx w opt s = (Panic "nil dns.ResponseWriter", s)) /\
  NewRespWriter nil_iface w opt s = (Panic "nil context", s) /\
  (exists v, NewRespWriter ctx nil_iface opt s = (Panic v, s)) /\
  (isNil ctx = false -> isNil w = false ->
   let rw := length (heap s) in
   let r := {| underlying := w; requestCtx := ctx;
               logger := withLogger (getGeneralOpts opt) |} in
   let s' := set_heap (heap s ++ [r]) s in
   NewRespWriter ctx w opt s = (Val rw, s') /\
   heap s !! rw = None /\
   heap s' !! rw = Some r /\
   RespWriter_Underlying rw s' = (Val w, s') /\
   RespWriter_RequestContext rw s' = (Val ctx, s')).
Proof.
  unfold NewRespWriter, panic.
  split; [by intros ->|].
  split; [by intros -> ->|].
  split; [reflexivity|].
  split; [destruct (isNil ctx); eauto|].
  intros -> ->. simpl.
  assert (Hnew : forall r : RespWriter, (heap s ++ [r]) !! length (heap s) = Some r).
  { intros r. by apply list_lookup_middle. }
  split; [reflexivity|].
  split; [by apply lookup_ge_None|].
  split; [apply Hnew|].
  unfold RespWriter_Underlying, RespWriter_RequestContext, bind, deref, ret. simpl.
  by rewrite Hnew.
Qed.

(** *** The frame of the methods *)

Lemma Context_Err_world (ctx : context_Context) (s : World) :
  snd (Context_Err ctx s) = s.
Proof.
  unfold Context_Err. destruct ctx as [|k [] [|id]]; try reflexivity.
  simpl. by destruct (ctxs s !! id).
Qed.

Lemma invoke_heap {A} (ev : Call) (w : ResponseWriter)
    (method : WriterImpl T -> T -> Res A * T) (s : World) :
  heap (snd (invoke ev w method s)) = heap s.
Proof.
  unfold invoke. destruct w as [|k n impl]; [reflexivity|].
  by destruct (method impl (transport s)).
Qed.

(** Unfolds a method down to the reads of the store and the calls through
    the interface. *)
Ltac unfold_method :=
  unfold perform, world_after,
    RespWriter_WriteMsg, RespWriter_Write, RespWriter_RemoteAddr,
    RespWriter_LocalAddr, RespWriter_TsigStatus, RespWriter_TsigTimersOnly,
    RespWriter_Hijack, RespWriter_Close, RespWriter_Underlying,
    RespWriter_RequestContext, RespWriter_Logger, RespWriter_SetLogger,
    ResponseWriter_LocalAddr, ResponseWriter_RemoteAddr,
    ResponseWriter_WriteMsg, ResponseWriter_Write, ResponseWriter_Close,
    ResponseWriter_TsigStatus, ResponseWriter_TsigTimersOnly,
    ResponseWriter_Hijack, Context_Done, bind, deref, ret.

(** No method but [SetLogger] writes to the heap of decorators. *)
Lemma perform_heap (q : nat) (op : Op) (s : World) :
  (forall l, op <> OpSetLogger l) -> heap (perform q op s) = heap s.
Proof.
  intros Hop. destruct op; try (by exfalso; eapply Hop);
    unfold_method; destruct (heap s !! q) as [r|]; try reflexivity;
    try apply invoke_heap;
    pose proof (Context_Err_world (requestCtx r) s) as Hs;
    destruct (Context_Err (requestCtx r) s) as [[e|v] s1]; simpl in Hs; subst s1;
    try reflexivity;
    (case_bool_decide; [|apply invoke_heap]);
    pose proof (Context_Err_world (requestCtx r) s) as Hs;
    destruct (Context_Err (requestCtx r) s) as [[e'|v] s1]; simpl in Hs; subst s1;
    reflexivity.
Qed.

(** [SetLogger] writes the logger field of its decorator, and nothing
    else. *)
Lemma perform_SetLogger (rw : nat) (r : RespWriter) (l : option slog_Logger) (s : World) :
  heap s !! rw = Some r ->
  perform rw (OpSetLogger l) s = set_heap (<[rw := with_logger l r]> (heap s)) s.
Proof. intros H. unfold_method. by rewrite H. Qed.

Lemma perform_SetLogger_dangling (q : nat) (l : option slog_Logger) (s : World) :
  heap s !! q = None -> perform q (OpSetLogger l) s = s.
Proof. intros H. unfold_method. by rewrite H. Qed.

Lemma perform_lookup (rw q : nat) (op : Op) (r : RespWriter) (s : World) :
  heap s !! rw = Some r ->
  heap (perform q op s) !! rw
  = Some (with_logger (logger_after rw (logger r) [(q, op)]) r).
Proof.
  intros Hrw.
  assert (Hid : with_logger (logger r) r = r) by by destruct r.
  destruct op; try (rewrite perform_heap by done; simpl; by rewrite Hid).
  cbn [logger_after]. destruct (heap s !! q) as [r'|] eqn:Hq.
  - rewrite (perform_SetLogger q r') by done. cbn [heap set_heap].
    case_decide as Hqrw.
    + subst q. rewrite Hrw in Hq. injection Hq as <-.
      apply list_lookup_insert_eq. by eapply lookup_lt_Some.
    + rewrite list_lookup_insert_ne by done. by rewrite Hid.
  - rewrite perform_SetLogger_dangling by done.
    case_decide as Hqrw; [congruence|]. by rewrite Hid.
Qed.

Lemma perform_all_lookup (ops : list (nat * Op)) (rw : nat) (r : RespWriter) (s : World) :
  heap s !! rw = Some r ->
  heap (perform_all ops s) !! rw
  = Some (with_logger (logger_after rw (logger r) ops) r).
Proof.
  revert r s. induction ops as [|[q op] ops IH]; intros r s Hrw.
  - simpl. rewrite Hrw. by destruct r.
  - pose proof (perform_lookup rw q op r s Hrw) as Hstep.
    unfold perform_all in *. simpl foldl.
    rewrite (IH _ _ Hstep). f_equal.
    destruct op; simpl; by destruct r.
Qed.

(** C9. No method of [*RespWriter] other than [SetLogger] writes to any
    decorator; [SetLogger] writes the logger field of its own decorator and
    nothing else in the world, and [Logger()] then returns what was passed.
    After any sequence of method calls, on this or on other decorators,
    the decorator holds the writer and the context it held before, and the
    logger last passed to its [SetLogger]; [Underlying()],
    [RequestContext()] and [Logger()] return these.  In particular a
    decorator built by [NewRespWriter(ctx, w)] keeps [w] and [ctx]. *)
Theorem methods_keep_writer_and_context
    (s : World) (rw : nat) (r : RespWriter) (ops : list (nat * Op)) :
  heap s !! rw = Some r ->
  (forall q op, (forall l, op <> OpSetLogger l) -> heap (perform q op s) = heap s) /\
  (forall l,
     let s' := perform rw (OpSetLogger l) s in
     s' = set_heap (<[rw := with_logger l r]> (heap s)) s /\
     RespWriter_Logger rw s' = (Val l, s')) /\
  (let s' := perform_all ops s in
   heap s' !! rw = Some (with_logger (logger_after rw (logger r) ops) r) /\
   RespWriter_Underlying rw s' = (Val (underlying r), s') /\
   RespWriter_RequestContext rw s' = (Val (requestCtx r), s') /\
   RespWriter_Logger rw s' = (Val (logger_after rw (logger r) ops), s')) /\
  (forall ctx w opt, isNil ctx = false -> isNil w = false ->
   let p := length (heap s) in
   let s' := perform_all ops (world_after (NewRespWriter ctx w opt) s) in
   RespWriter_Underlying p s' = (Val w, s') /\
   RespWriter_RequestContext p s' = (Val ctx, s')).
Proof.
  intros Hrw.
  assert (Hread : forall (s' : World) (r' : RespWriter) q,
    heap s' !! q = Some r' ->
    RespWriter_Underlying q s' = (Val (underlying r'), s') /\
    RespWriter_RequestContext q s' = (Val (requestCtx r'), s') /\
    RespWriter_Logger q s' = (Val (logger r'), s')).
  { intros s' r' q H. unfold_method. by rewrite H. }
  split; [intros q op; apply perform_heap|].
  split.
  - intros l. cbv zeta. rewrite (perform_SetLogger rw r l s Hrw).
    split; [reflexivity|].
    eapply (Hread _ (with_logger l r)). cbn [heap set_heap].
    apply list_lookup_insert_eq. by eapply lookup_lt_Some.
  - split.
    + cbv zeta. pose proof (perform_all_lookup ops rw r s Hrw) as Hl.
      split; [exact Hl|]. exact (Hread _ _ _ Hl).
    + intros ctx w opt Hc Hw. cbv zeta.
      unfold world_after, NewRespWriter, alloc. rewrite Hc, Hw. cbn [snd].
      set (r0 := {| underlying := w; requestCtx := ctx;
                    logger := withLogger (getGeneralOpts opt) |}).
      assert (H0 : heap (set_heap (heap s ++ [r0]) s) !! length (heap s) = Some r0)
        by by apply list_lookup_middle.
      pose proof (perform_all_lookup ops _ _ _ H0) as Hl.
      destruct (Hread _ _ _ Hl) as (Hu & Hx & _). by split.
Qed.

(** *** The handler factory *)

(** C3. When the timeout is zero or negative, or the handler is nil,
    [NewHandlerFunc] returns no handler and an error that wraps
    [ErrInvalidParameter] (and is neither of the errors of a context).
    [NewHandlerFunc] does not run in the world: the checks are made when
    the factory is called, and on failure there is no handler to serve
    any request. *)
Theorem NewHandlerFunc_rejects_invalid_parameters
    (requestTimeout : Z) (h : @HandlerFunc T) (opt : list Option) :
  requestTimeout <= 0 \/ h = None ->
  exists e,
    NewHandlerFunc requestTimeout h opt = (None, Some e) /\
    errors_Is e ErrInvalidParameter = true /\
    errors_Is e context_Canceled = false /\
    errors_Is e context_DeadlineExceeded = false.
Proof.
  intros Hbad. unfold NewHandlerFunc.
  destruct (requestTimeout <=? 0) eqn:Ht; [eauto 10|].
  destruct Hbad as [Hle | ->]; [apply Z.leb_gt in Ht; lia|].
  simpl. eauto 10.
Qed.

(** The two failures carry different texts, and valid parameters give a
    handler and no error. *)
Lemma NewHandlerFunc_cases (requestTimeout : Z) (h : @HandlerFunc T) (opt : list Option) :
  (requestTimeout <= 0 ->
   NewHandlerFunc requestTimeout h opt
   = (None, Some (Errorf "handlers.NewRespWriterHandler: invalid request timeout: "
                    ErrInvalidParameter))) /\
  (0 < requestTimeout -> h = None ->
   NewHandlerFunc requestTimeout h opt
   = (None, Some (Errorf "handlers.NewRespWriterHandler: nil handler: "
                    ErrInvalidParameter))) /\
  (0 < requestTimeout -> h <> None ->
   exists adapter, NewHandlerFunc requestTimeout h opt = (Some adapter, None)).
Proof.
  unfold NewHandlerFunc. repeat split.
  - intros H. apply Z.leb_le in H. by rewrite H.
  - intros H ->. apply Z.leb_gt in H. by rewrite H.
  - intros H Hh. apply Z.leb_gt in H. rewrite H.
    destruct h as [f|]; [|done]. simpl. eauto.
Qed.

(** C10. Absence is decided by [isNil], which sees through typed nils.
    A nil [dns.HandlerFunc] reaches [isNil] as an interface that is not
    nil and holds a nil func: [NewHandlerFunc] returns no handler and an
    error that wraps [ErrInvalidParameter] (the "nil handler" one when the
    timeout is positive).  A context or a writer that holds a nil pointer
    makes [NewRespWriter] panic with the value it panics with for the nil
    interface. *)
Theorem typed_nil_counts_as_nil
    (requestTimeout : Z) (opt : list Option) (s : World)
    (c : ctxImpl) (impl : WriterImpl T)
    (ctx : context_Context) (w : ResponseWriter) :
  isNil ctx = false ->
  (any_of_func (None : @HandlerFunc T) = dyn reflect.Func true None /\
   exists e,
     NewHandlerFunc requestTimeout (None : @HandlerFunc T) opt = (None, Some e) /\
     errors_Is e ErrInvalidParameter = true /\
     (0 < requestTimeout ->
      e = Errorf "handlers.NewRespWriterHandler: nil handler: " ErrInvalidParameter)) /\
  (NewRespWriter (dyn reflect.Ptr true c) w opt s = (Panic "nil context", s) /\
   NewRespWriter nil_iface w opt s = (Panic "nil context", s)) /\
  (NewRespWriter ctx (dyn reflect.Ptr true impl) opt s
   = (Panic "nil dns.ResponseWriter", s) /\
   NewRespWriter ctx nil_iface opt s = (Panic "nil dns.ResponseWriter", s)).
Proof.
  intros Hctx.
  split; [split; [reflexivity|]|].
  - destruct (NewHandlerFunc_cases requestTimeout (None : @HandlerFunc T) opt)
      as (Hle & Hnil & _).
    destruct (Z_le_gt_dec requestTimeout 0) as [H | H].
    + eexists. split; [by apply Hle|]. split; [reflexivity | lia].
    + eexists. split; [apply Hnil; [lia | reflexivity]|]. by split.
  - unfold NewRespWriter. rewrite Hctx. by repeat split.
Qed.

Lemma WithTimeout_Background (s : World) (timeout : Z) :
  0 < timeout ->
  context_WithTimeout context_Background timeout s
  = (Val (ctx_at (length (ctxs s)), cancel (length (ctxs s))),
     set_ctxs (ctxs s ++ [request_cell s timeout]) s).
Proof.
  intros Ht. unfold context_WithTimeout, new_ctx. simpl.
  unfold fire. simpl.
  assert (H : (now s + timeout <=? now s) = false) by (apply Z.leb_gt; lia).
  by rewrite H.
Qed.

(** C7. With a positive timeout and a handler [f], [NewHandlerFunc]
    returns a handler which, each time it is called with a writer [w] of
    the transport, allocates a new context that is a child of the
    background context (of no other context), live, with the deadline
    [requestTimeout] from now; allocates a new decorator that holds [w] and
    that context; calls [f] with the pointer to the decorator in the place
    of [w], and with the same message; and, however [f] ends (it returns or
    it panics), ends with that outcome after cancelling the context: when
    the store still has the context, it has terminated. *)
Theorem adapter_wraps_each_request
    (requestTimeout : Z) (f : HandlerWriter -> option dns_Msg -> M unit)
    (opt : list Option) (w : ResponseWriter) (r : option dns_Msg) (s : World) :
  0 < requestTimeout ->
  isNil w = false ->
  exists adapter : AdapterFunc,
    NewHandlerFunc requestTimeout (Some f) opt = (Some adapter, None) /\
    let id := length (ctxs s) in
    let rw := length (heap s) in
    let s1 := request_world s requestTimeout w opt in
    let out := f (resp_writer rw) r s1 in
    let s3 := set_ctxs (cancel_in id (ctxs (snd out))) (snd out) in
    ctxs s !! id = None /\ heap s !! rw = None /\
    ctxs s1 !! id = Some (request_cell s requestTimeout) /\
    live s1 (ctx_at id) /\
    heap s1 !! rw = Some (request_writer s w opt) /\
    adapter w r s = (fst out, s3) /\
    (forall cell, ctxs (snd out) !! id = Some cell ->
       exists c, terminated s3 (ctx_at id) c).
Proof.
  intros Ht Hw.
  unfold NewHandlerFunc.
  assert (Hleb : (requestTimeout <=? 0) = false) by (apply Z.leb_gt; lia).
  rewrite Hleb. simpl isNil. cbv iota.
  eexists. split; [reflexivity|]. cbv zeta.
  assert (Hcell : ctxs (request_world s requestTimeout w opt) !! length (ctxs s)
                  = Some (request_cell s requestTimeout))
    by by apply list_lookup_middle.
  split; [by apply lookup_ge_None|].
  split; [by apply lookup_ge_None|].
  split; [exact Hcell|].
  split; [simpl; eauto|].
  split; [by apply list_lookup_middle|].
  split.
  - unfold bind. rewrite (WithTimeout_Background s requestTimeout Ht).
    unfold defer, bind, NewRespWriter, alloc, call_handler.
    change (isNil (ctx_at (length (ctxs s)))) with false.
    rewrite Hw. cbv beta iota. cbn [heap set_ctxs].
    fold (request_writer s w opt).
    change (set_heap _ (set_ctxs _ s)) with (request_world s requestTimeout w opt).
    by destruct (f _ r (request_world s requestTimeout w opt)) as [res s2].
  - intros cell Hc. simpl.
    destruct (ctx_err cell) as [c|] eqn:He.
    + exists c. eexists. split; [|exact He].
      apply cancel_in_terminated; [done | congruence].
    + exists canceled. eexists. split; [by apply cancel_in_live|]. reflexivity.
Qed.

(** The exit path on which the decorator cannot be built: a nil writer
    makes the handler panic, after the context has been cancelled. *)
Lemma adapter_nil_writer
    (requestTimeout : Z) (f : HandlerWriter -> option dns_Msg -> M unit)
    (opt : list Option) (w : ResponseWriter) (r : option dns_Msg) (s : World) :
  0 < requestTimeout ->
  isNil w = true ->
  exists adapter : AdapterFunc,
    NewHandlerFunc requestTimeout (Some f) opt = (Some adapter, None) /\
    adapter w r s
    = (Panic "nil dns.ResponseWriter",
       set_ctxs (cancel_in (length (ctxs s)) (ctxs s ++ [request_cell s requestTimeout])) s).
Proof.
  intros Ht Hw. unfold NewHandlerFunc.
  assert (Hleb : (requestTimeout <=? 0) = false) by (apply Z.leb_gt; lia).
  rewrite Hleb. simpl isNil. cbv iota.
  eexists. split; [reflexivity|].
  unfold bind. rewrite (WithTimeout_Background s requestTimeout Ht).
  unfold defer, bind, NewRespWriter, panic.
  change (isNil (ctx_at (length (ctxs s)))) with false. by rewrite Hw.
Qed.

(** *** How a context terminates *)

(** The cancel func of a live context terminates it as [canceled]. *)
Lemma cancel_terminates (s : World) (id : nat) :
  live s (ctx_at id) ->
  terminated (world_after (cancel id) s) (ctx_at id) canceled.
Proof.
  simpl. intros (cell & Hc & He).
  eexists. split; [by apply cancel_in_live|]. reflexivity.
Qed.

(** Sleeping until the deadline of a live context or later terminates it as
    [deadline_exceeded]. *)
Lemma Sleep_past_deadline_terminates (s : World) (id : nat) (cell : ctxCell) (d dt : Z) :
  ctxs s !! id = Some cell -> ctx_err cell = None -> ctx_deadline cell = Some d ->
  d <= now s + Z.max dt 0 ->
  terminated (world_after (time_Sleep dt) s) (ctx_at id) deadline_exceeded.
Proof.
  intros Hc He Hd Hle. simpl.
  eexists. split; [by eapply expire_due|]. reflexivity.
Qed.

(** Termination is permanent: neither a cancel func nor the clock revives
    a context or changes its cause. *)
Lemma terminated_forever (s : World) (ctx : context_Context) (c : cause) :
  terminated s ctx c ->
  (forall id, terminated (world_after (cancel id) s) ctx c) /\
  (forall dt, terminated (world_after (time_Sleep dt) s) ctx c).
Proof.
  destruct ctx as [|k [] [|id]]; simpl; try tauto.
  intros (cell & Hc & He). split.
  - intros id'. exists cell. split; [|done].
    apply cancel_in_terminated; [done | congruence].
  - intros dt. exists cell. split; [|done].
    apply expire_terminated; [done | congruence].
Qed.

(** The context of a request does not depend on any other context:
    cancelling another context leaves it as it is. *)
Lemma request_context_independent (s : World) (id other : nat) (cell : ctxCell) :
  other <> id -> ctxs s !! id = Some cell -> ctx_parent cell = None ->
  ctxs (world_after (cancel other) s) !! id = Some cell.
Proof. intros Hne Hc Hp. simpl. by apply cancel_in_other_root. Qed.

End Decorator.

(** * The scenarios of the test suite *)

(** TestRespWriter_WriteMsg, context-done. *)
Example WriteMsg_context_done :
  observe
    ((let* '(ctx, cancel) := context_WithCancel context_Background in
      let* respWriter := NewRespWriter ctx mock_writer [WithLogger testLogger] in
      let* _ := cancel in
      RespWriter_WriteMsg respWriter (Some {| msg_Id := 0; msg_Answer := [] |}))
       (initial tt))
  = (Val (Some context_Canceled), []).
Proof. reflexivity. Qed.

(** TestRespWriter_WriteMsg, context-timeout. *)
Example WriteMsg_context_timeout :
  observe
    ((let* '(ctx, cancel) := context_WithTimeout context_Background (100 * millisecond) in
      let* respWriter := NewRespWriter ctx mock_writer [WithLogger testLogger] in
      let* _ := time_Sleep (200 * millisecond) in
      RespWriter_WriteMsg respWriter (Some {| msg_Id := 0; msg_Answer := [] |}))
       (initial tt))
  = (Val (Some context_DeadlineExceeded), []).
Proof. reflexivity. Qed.

(** TestRespWriter_WriteMsg, success. *)
Example WriteMsg_success :
  let msg := Some {| msg_Id := 0; msg_Answer := [] |} in
  observe
    ((let* respWriter :=
        NewRespWriter context_Background mock_writer [WithLogger testLogger] in
      RespWriter_WriteMsg respWriter msg)
       (initial tt))
  = (Val None, [CallWriteMsg msg]).
Proof. reflexivity. Qed.

(** TestRespWriter_Write, context-timeout. *)
Example Write_context_timeout :
  observe
    ((let* '(ctx, cancel) := context_WithTimeout context_Background (100 * millisecond) in
      let* respWriter := NewRespWriter ctx mock_writer [WithLogger testLogger] in
      let* _ := time_Sleep (200 * millisecond) in
      RespWriter_Write respWriter [])
       (initial tt))
  = (Val (0, Some context_DeadlineExceeded), []).
Proof. reflexivity. Qed.

(** TestRespWriter_Close, context-done: [Close] still reaches the writer. *)
Example Close_context_done :
  observe
    ((let* '(ctx, cancel) := context_WithCancel context_Background in
      let* respWriter := NewRespWriter ctx mock_writer [WithLogger testLogger] in
      let* _ := cancel in
      RespWriter_Close respWriter)
       (initial tt))
  = (Val None, [CallClose]).
Proof. reflexivity. Qed.

(** TestNewRespWriter: a nil writer panics. *)
Example NewRespWriter_nil_writer :
  observe (NewRespWriter context_Background nil_iface [WithLogger testLogger] (initial tt))
  = (Panic "nil dns.ResponseWriter", []).
Proof. reflexivity. Qed.

(** TestRespWriter_SetLogger. *)
Example SetLogger_then_Logger :
  let newLogger := Some (logger_at 2) in
  observe
    ((let* respWriter :=
        NewRespWriter context_Background mock_writer [WithLogger testLogger] in
      let* _ := RespWriter_SetLogger respWriter newLogger in
      RespWriter_Logger respWriter)
       (initial tt))
  = (Val newLogger, []).
Proof. reflexivity. Qed.

(** TestNewRespWriterHandler, success-req-timeout: a handler that sleeps
    200ms under a timeout of 100ms finds its [WriteMsg] refused with
    [DeadlineExceeded], and nothing reaches the writer of the transport. *)
Example adapter_request_timeout :
  let check (e : option error) : M unit unit :=
    match e with
    | Some e' =>
        if errors_Is e' context_DeadlineExceeded then ret tt
        else panic "another error"
    | None => panic "no error"
    end in
  match NewHandlerFunc (100 * millisecond) (sleepy_handler check) [WithLogger testLogger] with
  | (Some adapter, None) =>
      observe (adapter mock_writer None (initial tt)) = (Val tt, [])
  | _ => False
  end.
Proof. reflexivity. Qed.

(** TestNewRespWriterHandler, err-invalid-request-timeout. *)
Example adapter_invalid_timeout :
  NewHandlerFunc (-1000 * millisecond) (sleepy_handler (fun _ => ret tt)) [WithLogger testLogger]
  = (None, Some (Errorf "handlers.NewRespWriterHandler: invalid request timeout: "
                   ErrInvalidParameter)).
Proof. reflexivity. Qed.

(** * [Write] and the buffer of the caller *)

(** C2, on the code.  A decorator over the recording writer, with the
    background context (which never terminates), is asked to write the two
    bytes 01 02.  The wrapped writer is given the empty buffer and the
    result is its result for the empty buffer, a count of 0; called
    directly with the two bytes, the same writer receives them and reports
    2. *)
Theorem Write_passes_the_empty_buffer :
  let b := [Byte.x01; Byte.x02] in
  let s := world_after (NewRespWriter context_Background recorder []) (initial []) in
  live s context_Background /\
  heap s !! 0%nat
    = Some {| underlying := recorder; requestCtx := context_Background; logger := None |} /\
  (let out := RespWriter_Write 0 b s in
   fst out = Val (0, None) /\
   transport (snd out) = [[]] /\
   calls (snd out) = [CallWrite []]) /\
  (let out := ResponseWriter_Write recorder b s in
   fst out = Val (2, None) /\
   transport (snd out) = [b] /\
   calls (snd out) = [CallWrite b]) /\
  RespWriter_Write 0 b s <> ResponseWriter_Write recorder b s.
Proof. cbv zeta. repeat split. discriminate. Qed.

(** * Instances of the theorems *)

Lemma gated_methods_refuse_witness :
  heap cancelled_world !! 0%nat = Some (mock_decorator (ctx_at 0)) /\
  terminated cancelled_world (ctx_at 0) canceled /\
  RespWriter_WriteMsg 0 None cancelled_world
    = (Val (Some context_Canceled), cancelled_world) /\
  RespWriter_Write 0 [Byte.x01] cancelled_world
    = (Val (0, Some context_Canceled), cancelled_world) /\
  RespWriter_TsigStatus 0 cancelled_world
    = (Val (Some context_Canceled), cancelled_world).
Proof.
  assert (H1 : heap cancelled_world !! 0%nat = Some (mock_decorator (ctx_at 0)))
    by reflexivity.
  assert (H2 : terminated cancelled_world (ctx_at 0) canceled)
    by (exists cancelled_cell; split; reflexivity).
  split; [exact H1|]. split; [exact H2|].
  destruct (gated_methods_refuse_after_termination
              cancelled_world 0 (mock_decorator (ctx_at 0)) canceled
              None [Byte.x01] H1 H2) as (Hm & Hw & Ht & _).
  split; [exact Hm|]. split; [exact Hw | exact Ht].
Defined.

Lemma gated_methods_delegate_witness :
  heap live_world !! 0%nat = Some (mock_decorator context_Background) /\
  live live_world context_Background /\
  RespWriter_WriteMsg 0 None live_world
    = (Val None, called (CallWriteMsg None) tt live_world) /\
  RespWriter_TsigStatus 0 live_world
    = (Val None, called CallTsigStatus tt live_world).
Proof.
  assert (H1 : heap live_world !! 0%nat = Some (mock_decorator context_Background))
    by reflexivity.
  assert (H2 : live live_world context_Background) by exact I.
  split; [exact H1|]. split; [exact H2|].
  destruct (gated_methods_delegate_while_live
              live_world 0 (mock_decorator context_Background)
              reflect.Ptr false mockDNSResponseWriter None H1 eq_refl H2)
    as (Hm & Ht & _).
  split; [exact Hm | exact Ht].
Defined.

Lemma ungated_methods_witness :
  heap cancelled_world !! 0%nat = Some (mock_decorator (ctx_at 0)) /\
  RespWriter_RemoteAddr 0 cancelled_world
    = (Val (Some ("ip", "127.0.0.1")), called CallRemoteAddr tt cancelled_world) /\
  RespWriter_Close 0 cancelled_world
    = (Val None, called CallClose tt cancelled_world).
Proof.
  assert (H1 : heap cancelled_world !! 0%nat = Some (mock_decorator (ctx_at 0)))
    by reflexivity.
  split; [exact H1|].
  destruct (ungated_methods_always_delegate
              cancelled_world 0 (mock_decorator (ctx_at 0))
              reflect.Ptr false mockDNSResponseWriter true H1 eq_refl)
    as (Hr & _ & _ & _ & Hc).
  split; [exact Hr | exact Hc].
Defined.

Lemma NewHandlerFunc_rejects_witness :
  (0 <= 0 \/ sleepy_handler (fun _ => ret tt) = None) /\
  exists e,
    NewHandlerFunc 0 (sleepy_handler (fun _ => ret tt)) [] = (None, Some e) /\
    errors_Is e ErrInvalidParameter = true /\
    errors_Is e context_Canceled = false /\
    errors_Is e context_DeadlineExceeded = false.
Proof.
  assert (H : 0 <= 0 \/ sleepy_handler (fun _ => ret tt) = None) by (left; lia).
  split; [exact H|].
  exact (NewHandlerFunc_rejects_invalid_parameters 0 _ [] H).
Defined.

Lemma NewRespWriter_stores_witness :
  isNil context_Background = false /\
  isNil mock_writer = false /\
  NewRespWriter context_Background mock_writer [WithLogger testLogger] (initial tt)
    = (Val 0%nat, set_heap [mock_decorator context_Background] (initial tt)) /\
  NewRespWriter nil_iface mock_writer [] (initial tt) = (Panic "nil context", initial tt).
Proof.
  destruct (NewRespWriter_panics_on_nil_else_stores
              (initial tt) context_Background mock_writer [WithLogger testLogger])
    as (_ & _ & _ & _ & Hok).
  destruct (NewRespWriter_panics_on_nil_else_stores
              (initial tt) nil_iface mock_writer [])
    as (Hnil & _).
  split; [reflexivity|]. split; [reflexivity|].
  split; [exact (proj1 (Hok eq_refl eq_refl)) | exact (Hnil eq_refl)].
Defined.

Lemma methods_keep_witness :
  heap live_world !! 0%nat = Some (mock_decorator context_Background) /\
  let ops := [(0%nat, OpWriteMsg None); (0%nat, OpSetLogger (Some (logger_at 2)));
              (0%nat, OpClose); (1%nat, OpSetLogger None)] in
  let s' := perform_all ops live_world in
  RespWriter_Underlying 0 s' = (Val mock_writer, s') /\
  RespWriter_RequestContext 0 s' = (Val context_Background, s') /\
  RespWriter_Logger 0 s' = (Val (Some (logger_at 2)), s').
Proof.
  assert (H1 : heap live_world !! 0%nat = Some (mock_decorator context_Background))
    by reflexivity.
  split; [exact H1|]. cbv zeta.
  destruct (methods_keep_writer_and_context live_world 0 _
              [(0%nat, OpWriteMsg None); (0%nat, OpSetLogger (Some (logger_at 2)));
               (0%nat, OpClose); (1%nat, OpSetLogger None)] H1)
    as (_ & _ & (_ & Hu & Hc & Hl) & _).
  split; [exact Hu|]. split; [exact Hc | exact Hl].
Defined.

Lemma typed_nil_witness :
  isNil context_Background = false /\
  (exists e,
     NewHandlerFunc (T := unit) (100 * millisecond) None [] = (None, Some e) /\
     errors_Is e ErrInvalidParameter = true) /\
  NewRespWriter (dyn reflect.Ptr true (cancelCtx 0)) mock_writer [] (initial tt)
    = (Panic "nil context", initial tt) /\
  NewRespWriter context_Background (dyn reflect.Ptr true mockDNSResponseWriter) []
      (initial tt)
    = (Panic "nil dns.ResponseWriter", initial tt).
Proof.
  assert (Hc : isNil context_Background = false) by reflexivity.
  split; [exact Hc|].
  destruct (typed_nil_counts_as_nil (100 * millisecond) [] (initial tt)
              (cancelCtx 0) mockDNSResponseWriter context_Background mock_writer Hc)
    as ((_ & e & Hh & He & _) & (Hx & _) & (Hw & _)).
  split; [exists e; by split|]. split; [exact Hx | exact Hw].
Defined.

Lemma adapter_wraps_witness :
  0 < 100 * millisecond /\
  isNil mock_writer = false /\
  exists adapter : AdapterFunc,
    NewHandlerFunc (100 * millisecond) (Some replying_handler) [] = (Some adapter, None) /\
    observe (adapter mock_writer None (initial tt)) = (Val tt, [CallWriteMsg None]) /\
    ctxs (snd (adapter mock_writer None (initial tt)))
      = [with_err (Some canceled) (request_cell (initial tt) (100 * millisecond))].
Proof.
  assert (Ht : 0 < 100 * millisecond) by (unfold millisecond; lia).
  assert (Hw : isNil mock_writer = false) by reflexivity.
  split; [exact Ht|]. split; [exact Hw|].
  destruct (adapter_wraps_each_request (100 * millisecond) replying_handler []
              mock_writer None (initial tt) Ht Hw)
    as (adapter & Hnew & _ & _ & _ & _ & _ & Hrun & _).
  exists adapter. split; [exact Hnew|].
  rewrite Hrun. split; reflexivity.
Defined.

(** * Further properties of the package *)

(** ** isNil *)

(** X1. [isNil] never panics: it asks [IsNil] only about kinds on which [IsNil]
    is defined, and its answer is the one of the function above.  It is
    true exactly for the nil interface and for the nil values of the five
    kinds it lists; in particular a value of any other kind, nil or not,
    is reported as present. *)
Theorem isNil_never_panics_and_what_it_sees {A} (i : iface A) :
  isNil_checked i = Val (isNil i) /\
  (isNil i = true <->
   i = nil_iface \/
   exists k v, i = dyn k true v /\
     k ∈ [reflect.Ptr; reflect.Map; reflect.Chan; reflect.Slice; reflect.Func]) /\
  (forall k n v, i = dyn k n v ->
   k ∉ [reflect.Ptr; reflect.Map; reflect.Chan; reflect.Slice; reflect.Func] ->
   isNil i = false).
Proof.
  split; [|split].
  - destruct i as [|k n v]; [reflexivity|]. by destruct k.
  - apply isNil_true_iff.
  - intros k n v -> Hk. destruct k; try reflexivity;
      exfalso; apply Hk; unfold reflect.Ptr; repeat constructor.
Qed.

(** ** NewHandlerFunc *)

Section Factory.

Context {T : Type}.

Local Abbreviation M := (M T).
Local Abbreviation World := (World T).
Local Abbreviation ResponseWriter := (ResponseWriter T).
Local Abbreviation RespWriter := (RespWriter T).

(** X2. [NewHandlerFunc] returns a handler exactly when the timeout is positive
    and the handler is not nil, and then no error; otherwise it returns no
    handler and an error.  The timeout is looked at first: with a timeout
    that is not positive the error is the "invalid request timeout" one
    whether or not the handler is nil.  The error is never
    [ErrInvalidParameter] itself but a wrapper of it, so it is recognised
    by [errors.Is] and not by [==]. *)
Theorem NewHandlerFunc_succeeds_iff_valid
    (requestTimeout : Z) (h : @HandlerFunc T) (opt : list Option) :
  ((exists adapter, NewHandlerFunc requestTimeout h opt = (Some adapter, None)) <->
   0 < requestTimeout /\ h <> None) /\
  ((exists e, NewHandlerFunc requestTimeout h opt = (None, Some e)) <->
   requestTimeout <= 0 \/ h = None) /\
  (requestTimeout <= 0 ->
   NewHandlerFunc requestTimeout h opt
   = (None, Some (Errorf "handlers.NewRespWriterHandler: invalid request timeout: "
                    ErrInvalidParameter))) /\
  (forall e, snd (NewHandlerFunc requestTimeout h opt) = Some e ->
   e <> ErrInvalidParameter /\ errors_Is e ErrInvalidParameter = true).
Proof.
  destruct (NewHandlerFunc_cases requestTimeout h opt) as (Hle & Hnil & Hok).
  destruct (Z_le_gt_dec requestTimeout 0) as [Ht | Ht].
  - specialize (Hle Ht). rewrite Hle.
    split; [split; [intros (a & Ha); discriminate | lia]|].
    split; [split; eauto|].
    split; [done|].
    intros e [= <-]. by split.
  - destruct h as [f|].
    + destruct Hok as (adapter & Ha); [lia | done |]. rewrite Ha.
      split; [split; [intros _; split; [lia | done] | eauto]|].
      split; [split; [intros (e & He); discriminate | intros [? | ?]; [lia | done]]|].
      split; [lia|]. intros e H. discriminate.
    + rewrite Hnil by (done || lia).
      split; [split; [intros (a & Ha); discriminate | intros [_ Hh]; done]|].
      split; [split; eauto|].
      split; [lia|]. intros e [= <-]. by split.
Qed.

End Factory.

(** ** The decorator over time *)

Section Traces.

Context {T : Type}.

Local Abbreviation M := (M T).
Local Abbreviation World := (World T).
Local Abbreviation ResponseWriter := (ResponseWriter T).
Local Abbreviation RespWriter := (RespWriter T).

Ltac unfold_methods :=
  unfold perform, world_after,
    RespWriter_WriteMsg, RespWriter_Write, RespWriter_RemoteAddr,
    RespWriter_LocalAddr, RespWriter_TsigStatus, RespWriter_TsigTimersOnly,
    RespWriter_Hijack, RespWriter_Close, RespWriter_Underlying,
    RespWriter_RequestContext, RespWriter_Logger, RespWriter_SetLogger,
    ResponseWriter_LocalAddr, ResponseWriter_RemoteAddr,
    ResponseWriter_WriteMsg, ResponseWriter_Write, ResponseWriter_Close,
    ResponseWriter_TsigStatus, ResponseWriter_TsigTimersOnly,
    ResponseWriter_Hijack, bind, deref, ret.

(** [Err()] and [Done()] only read the world. *)
Lemma Context_Err_reads (ctx : context_Context) (s : World) :
  exists x, Context_Err ctx s = (x, s).
Proof.
  unfold Context_Err. destruct ctx as [|k [] [|id]]; eauto.
  destruct (ctxs s !! id); eauto.
Qed.

Lemma Context_Done_reads (ctx : context_Context) (s : World) :
  exists x, Context_Done ctx s = (x, s).
Proof.
  unfold Context_Done, bind, ret.
  destruct (Context_Err_reads ctx s) as ([e|v] & ->); eauto.
Qed.

(** X3. The logger of the options reaches the decorator: after
    [NewRespWriter(ctx, w, opts...)], with options that are nil or built by
    [WithLogger], [Logger()] returns the last logger among them that is not
    nil, and nil when there is none. *)
Theorem NewRespWriter_takes_the_last_logger
    (s : World) (ctx : context_Context) (w : ResponseWriter)
    (xs : list (option (option slog_Logger))) :
  isNil ctx = false ->
  isNil w = false ->
  let rw := length (heap s) in
  let s' := world_after (NewRespWriter ctx w (option_of <$> xs)) s in
  RespWriter_Logger rw s' = (Val (last_logger None xs), s').
Proof.
  intros Hc Hw. cbv zeta.
  unfold world_after, NewRespWriter, alloc. rewrite Hc, Hw. cbn [snd].
  unfold_methods. cbn [heap set_heap].
  rewrite list_lookup_middle by reflexivity. cbn [logger].
  unfold getGeneralOpts. by rewrite applyOpts_last_logger.
Qed.

(** X4. While the request context is live, [Write(b)] is the call [Write] of
    the wrapped writer on the empty buffer, whatever [b] is: the outcome
    and the bytes that reach the transport do not depend on [b]. *)
Theorem Write_while_live_sends_the_empty_buffer
    (s : World) (rw : nat) (r : RespWriter) k n (impl : WriterImpl T) :
  heap s !! rw = Some r ->
  underlying r = dyn k n impl ->
  live s (requestCtx r) ->
  forall b : list Byte.byte,
    RespWriter_Write rw b s
    = (fst (impl_Write impl [] (transport s)),
       called (CallWrite []) (snd (impl_Write impl [] (transport s))) s).
Proof.
  intros Hrw Hu Hlive b.
  rewrite (Write_live s rw r b Hrw Hlive), Hu.
  unfold ResponseWriter_Write, invoke.
  by destruct (impl_Write impl [] (transport s)).
Qed.

(** What one method call does to the world: nothing; or one call on the
    wrapped writer, the one of the method; or, for [SetLogger], the write
    of the logger field. *)
Lemma perform_cases (q : nat) (op : Op) (s : World) :
  perform q op s = s \/
  (exists ev t, event_of op = Some ev /\ perform q op s = called ev t s) \/
  (exists r l, op = OpSetLogger l /\ heap s !! q = Some r /\
     perform q op s = set_heap (<[q := with_logger l r]> (heap s)) s).
Proof.
  assert (Hinv : forall A ev (w : ResponseWriter) (m : WriterImpl T -> T -> Res A * T),
    snd (invoke ev w m s) = s \/ exists t, snd (invoke ev w m s) = called ev t s).
  { intros A ev w m. unfold invoke. destruct w as [|k n impl]; [by left|].
    right. destruct (m impl (transport s)) as [x t]. by exists t. }
  assert (Hgate : forall A (ctx : context_Context) (yes no : M A) ev,
    (exists y, yes s = (y, s)) ->
    (snd (no s) = s \/ exists t, snd (no s) = called ev t s) ->
    snd (match Context_Done ctx s with
         | (Val closed, s') => (if closed then yes else no) s'
         | (Panic v, s') => (Panic v, s')
         end) = s \/
    exists t, snd (match Context_Done ctx s with
                   | (Val closed, s') => (if closed then yes else no) s'
                   | (Panic v, s') => (Panic v, s')
                   end) = called ev t s).
  { intros A ctx yes no ev Hyes Hno.
    destruct (Context_Done_reads ctx s) as ([[]|v] & ->); [|exact Hno|by left].
    destruct Hyes as (y & ->). by left. }
  destruct op; unfold_methods; destruct (heap s !! q) as [r|] eqn:Hq;
    try (by left);
    try (match goal with
         | |- context [invoke ?ev ?w ?m s] =>
             destruct (Hinv _ ev w m) as [H | (t & H)]
         end;
         [left; exact H | right; left; eexists _, t; split; [reflexivity | exact H]]).
  - (* WriteMsg *)
    edestruct (Hgate (option error) (requestCtx r) (Context_Err (requestCtx r)))
      as [H | (t & H)]; [| apply Hinv | left; exact H
                         | right; left; eexists _, t; split; [reflexivity | exact H]].
    apply Context_Err_reads.
  - (* Write *)
    edestruct (Hgate (Z * option error)%type (requestCtx r)
                 (fun s0 => match Context_Err (requestCtx r) s0 with
                            | (Val e, s') => (Val (0, e), s')
                            | (Panic v, s') => (Panic v, s')
                            end))
      as [H | (t & H)]; [| apply Hinv | left; exact H
                         | right; left; eexists _, t; split; [reflexivity | exact H]].
    destruct (Context_Err_reads (requestCtx r) s) as ([e|v] & ->); eauto.
  - (* TsigStatus *)
    edestruct (Hgate (option error) (requestCtx r) (Context_Err (requestCtx r)))
      as [H | (t & H)]; [| apply Hinv | left; exact H
                         | right; left; eexists _, t; split; [reflexivity | exact H]].
    apply Context_Err_reads.
  - (* SetLogger *)
    right. right. by eexists r, l.
Qed.

Lemma perform_env (q : nat) (op : Op) (s : World) :
  now (perform q op s) = now s /\ ctxs (perform q op s) = ctxs s.
Proof.
  destruct (perform_cases q op s) as [-> | [(ev & t & _ & ->) | (r & l & _ & _ & ->)]];
    by split.
Qed.

Lemma perform_all_env (ops : list (nat * Op)) (s : World) :
  now (perform_all ops s) = now s /\ ctxs (perform_all ops s) = ctxs s.
Proof.
  revert s. induction ops as [|[q op] ops IH]; intros s; [done|].
  unfold perform_all in *. cbn [foldl fst snd].
  destruct (IH (perform q op s)) as (Hn & Hc).
  destruct (perform_env q op s) as (Hn' & Hc'). split; congruence.
Qed.

Lemma terminated_ctxs (s s' : World) (ctx : context_Context) (c : cause) :
  ctxs s' = ctxs s -> terminated s ctx c -> terminated s' ctx c.
Proof. unfold terminated. by intros ->. Qed.

Lemma live_ctxs (s s' : World) (ctx : context_Context) :
  ctxs s' = ctxs s -> live s ctx -> live s' ctx.
Proof. unfold live. by intros ->. Qed.

(** X5. The decorator makes no call of its own on the wrapped writer.  After
    any sequence of method calls on any decorators, the calls logged are
    the earlier ones followed by calls that the methods called stand for,
    in the order of the method calls, at most one for each ([Close] and
    [Hijack] only where [Close] and [Hijack] were called; none for
    [Underlying], [RequestContext], [Logger] and [SetLogger]).  Neither
    the clock nor any context is changed, so no method cancels or revives
    a request context. *)
Theorem methods_call_only_what_was_asked (ops : list (nat * Op)) (s : World) :
  (exists evs,
     calls (perform_all ops s) = calls s ++ evs /\
     evs `sublist_of` omap (fun x => event_of x.2) ops) /\
  now (perform_all ops s) = now s /\
  ctxs (perform_all ops s) = ctxs s.
Proof.
  revert s. induction ops as [|[q op] ops IH]; intros s.
  - split; [|done]. exists []. split; [by rewrite app_nil_r | done].
  - unfold perform_all in *. cbn [foldl fst snd].
    destruct (IH (perform q op s)) as ((evs & Hcalls & Hsub) & Hnow & Hctxs).
    destruct (perform_env q op s) as (Hn & Hc).
    split; [|split; congruence].
    rewrite Hcalls. cbn [omap list_omap fst snd].
    destruct (perform_cases q op s)
      as [-> | [(ev & t & Hev & ->) | (r & l & -> & _ & ->)]].
    + exists evs. split; [done|].
      destruct (event_of op); [by apply sublist_cons | done].
    + exists (ev :: evs). cbn [calls called]. rewrite <- app_assoc.
      split; [done|]. rewrite Hev. by apply sublist_skip.
    + exists evs. by split.
Qed.

(** One method call on a decorator whose context has terminated. *)
Lemma perform_after_termination
    (s : World) (rw : nat) (r : RespWriter) k n (impl : WriterImpl T)
    (c : cause) (op : Op) :
  heap s !! rw = Some r ->
  underlying r = dyn k n impl ->
  terminated s (requestCtx r) c ->
  calls (perform rw op s) = calls s ++ option_list (event_after_termination op).
Proof.
  intros Hrw Hu Hterm.
  pose proof (Context_Done_terminated _ _ _ Hterm) as Hdone.
  pose proof (Context_Err_terminated _ _ _ Hterm) as Herr.
  destruct op; unfold_methods; rewrite Hrw; cbn [event_after_termination gated event_of option_list];
    rewrite ?Hdone, ?Herr, ?Hu; cbn [snd]; rewrite ?app_nil_r; try reflexivity;
    unfold invoke;
    match goal with
    | |- context [let '(_, _) := ?x in _] => by destruct x
    end.
Qed.

Lemma perform_all_after_termination
    (rw : nat) k n (impl : WriterImpl T) (ctx : context_Context) (c : cause)
    (ops : list Op) (s : World) (r : RespWriter) :
  heap s !! rw = Some r ->
  underlying r = dyn k n impl ->
  requestCtx r = ctx ->
  terminated s ctx c ->
  calls (perform_all ((fun op => (rw, op)) <$> ops) s)
  = calls s ++ omap event_after_termination ops.
Proof.
  revert s r. induction ops as [|op ops IH]; intros s r Hrw Hu Hctx Hterm.
  - by rewrite app_nil_r.
  - unfold perform_all in *. cbn [fmap list_fmap foldl fst snd].
    pose proof (perform_lookup rw rw op r s Hrw) as Hrw'.
    destruct (perform_env rw op s) as (_ & Hc).
    rewrite (IH (perform rw op s) _ Hrw' Hu Hctx (terminated_ctxs _ _ _ _ Hc Hterm)).
    subst ctx. rewrite (perform_after_termination s rw r k n impl c op Hrw Hu Hterm).
    rewrite <- app_assoc. f_equal. cbn [omap list_omap].
    by destruct (event_after_termination op).
Qed.

(** X6. Once the request context has terminated, it stays so through any
    sequence of method calls on the decorator, and of these calls exactly
    the ones of [RemoteAddr], [LocalAddr], [TsigTimersOnly], [Hijack] and
    [Close] reach the wrapped writer, each once and in order: no
    [WriteMsg], [Write] or [TsigStatus] ever does. *)
Theorem after_termination_only_ungated_calls_pass
    (s : World) (rw : nat) (r : RespWriter) k n (impl : WriterImpl T)
    (c : cause) (ops : list Op) :
  heap s !! rw = Some r ->
  underlying r = dyn k n impl ->
  terminated s (requestCtx r) c ->
  let s' := perform_all ((fun op => (rw, op)) <$> ops) s in
  calls s' = calls s ++ omap event_after_termination ops /\
  terminated s' (requestCtx r) c /\
  (forall m b,
     (CallWriteMsg m ∉ omap event_after_termination ops) /\
     (CallWrite b ∉ omap event_after_termination ops) /\
     (CallTsigStatus ∉ omap event_after_termination ops)).
Proof.
  intros Hrw Hu Hterm. cbv zeta.
  split; [by eapply perform_all_after_termination|].
  split.
  - eapply terminated_ctxs; [|exact Hterm].
    apply perform_all_env.
  - assert (Hno : forall ev, ev ∈ omap event_after_termination ops ->
      exists op, gated op = false /\ event_of op = Some ev).
    { intros ev Hev. apply list_elem_of_omap in Hev as (op & _ & Hop).
      exists op. unfold event_after_termination in Hop.
      destruct (gated op); [discriminate | done]. }
    intros m b. repeat split; intros Hin;
      destruct (Hno _ Hin) as (op & Hg & Hop); by destruct op.
Qed.

(** ** The handler of the factory and the deadline *)

(** The timer of a live child of the background context does not fire
    before its deadline. *)
Lemma expire_not_due (cells : list ctxCell) (n : Z) (id : nat) (c : ctxCell) (d : Z) :
  cells !! id = Some c -> ctx_err c = None -> ctx_parent c = None ->
  ctx_deadline c = Some d -> n < d ->
  expire n cells !! id = Some c.
Proof.
  intros Hc He Hp Hd Hlt. unfold expire.
  assert (Hf : fire n c = c).
  { unfold fire. rewrite He, Hd.
    assert (H : (d <=? n) = false) by (apply Z.leb_gt; lia). by rewrite H. }
  apply propagate_lookup_settled; [|by right].
  rewrite list_lookup_fmap, Hc. simpl. by rewrite Hf.
Qed.

Lemma gated_terminated (s : World) (rw : nat) (r : RespWriter) (c : cause) :
  heap s !! rw = Some r ->
  terminated s (requestCtx r) c ->
  forall m b,
    RespWriter_WriteMsg rw m s = (Val (Some (cause_error c)), s) /\
    RespWriter_Write rw b s = (Val (0, Some (cause_error c)), s) /\
    RespWriter_TsigStatus rw s = (Val (Some (cause_error c)), s).
Proof.
  intros Hrw Hterm m b.
  pose proof (Context_Done_terminated _ _ _ Hterm) as Hdone.
  pose proof (Context_Err_terminated _ _ _ Hterm) as Herr.
  unfold_methods. by rewrite Hrw, Hdone, Herr.
Qed.

Lemma WriteMsg_live (s : World) (rw : nat) (r : RespWriter) k n (impl : WriterImpl T)
    (m : option dns_Msg) :
  heap s !! rw = Some r ->
  underlying r = dyn k n impl ->
  live s (requestCtx r) ->
  RespWriter_WriteMsg rw m s
  = (fst (impl_WriteMsg impl m (transport s)),
     called (CallWriteMsg m) (snd (impl_WriteMsg impl m (transport s))) s).
Proof.
  intros Hrw Hu Hlive. unfold_methods.
  rewrite Hrw, (Context_Done_live _ _ Hlive), Hu. unfold invoke.
  by destruct (impl_WriteMsg impl m (transport s)).
Qed.

(** What the handler of the factory does with a writer of the transport:
    the inner handler runs in the world of the request, and the context of
    the request is cancelled when it has ended. *)
Lemma adapter_run
    (requestTimeout : Z) (f : HandlerWriter -> option dns_Msg -> M unit)
    (opt : list Option) (w : ResponseWriter) (r : option dns_Msg) (s : World) :
  0 < requestTimeout ->
  isNil w = false ->
  exists adapter : AdapterFunc,
    NewHandlerFunc requestTimeout (Some f) opt = (Some adapter, None) /\
    adapter w r s
    = (fst (f (resp_writer (length (heap s))) r (request_world s requestTimeout w opt)),
       set_ctxs
         (cancel_in (length (ctxs s))
            (ctxs (snd (f (resp_writer (length (heap s))) r
                          (request_world s requestTimeout w opt)))))
         (snd (f (resp_writer (length (heap s))) r
                 (request_world s requestTimeout w opt)))).
Proof.
  intros Ht Hw. unfold NewHandlerFunc.
  assert (Hleb : (requestTimeout <=? 0) = false) by (apply Z.leb_gt; lia).
  rewrite Hleb. simpl isNil. cbv iota.
  eexists. split; [reflexivity|].
  unfold bind. rewrite (WithTimeout_Background s requestTimeout Ht).
  unfold defer, bind, NewRespWriter, alloc, call_handler.
  change (isNil (ctx_at (length (ctxs s)))) with false.
  rewrite Hw. cbv beta iota. cbn [heap set_ctxs].
  fold (request_writer s w opt).
  change (set_heap _ (set_ctxs _ s)) with (request_world s requestTimeout w opt).
  by destruct (f _ r (request_world s requestTimeout w opt)) as [res s2].
Qed.

(** The world of a request after a sleep of [d]. *)
Lemma request_world_after_Sleep
    (s : World) (requestTimeout d : Z) (w : ResponseWriter) (opt : list Option) :
  let s1 := request_world s requestTimeout w opt in
  let s2 := world_after (time_Sleep d) s1 in
  time_Sleep d s1 = (Val tt, s2) /\
  heap s2 !! length (heap s) = Some (request_writer s w opt) /\
  transport s2 = transport s /\ calls s2 = calls s /\
  now s2 = now s + Z.max d 0 /\
  (requestTimeout <= Z.max d 0 ->
   terminated s2 (ctx_at (length (ctxs s))) deadline_exceeded) /\
  (Z.max d 0 < requestTimeout -> live s2 (ctx_at (length (ctxs s)))).
Proof.
  cbv zeta.
  assert (Hcell : (ctxs s ++ [request_cell s requestTimeout]) !! length (ctxs s)
                  = Some (request_cell s requestTimeout))
    by by apply list_lookup_middle.
  split; [reflexivity|].
  split; [by apply list_lookup_middle|].
  split; [reflexivity|]. split; [reflexivity|]. split; [reflexivity|].
  split; intros Hd; simpl.
  - eexists. split; [|shelve].
    eapply expire_due; [exact Hcell | reflexivity | reflexivity | simpl; lia].
    Unshelve. reflexivity.
  - eexists. split; [|shelve].
    eapply expire_not_due; [exact Hcell | reflexivity | reflexivity | reflexivity |].
    simpl. lia.
    Unshelve. reflexivity.
Qed.


(** X8. The decorator of a request is of no use once the request has been
    served.  When the inner handler has ended, leaving the decorator and
    the context of the request in place, [WriteMsg], [Write] and
    [TsigStatus] on that decorator return the error of the context
    ([Canceled], or [DeadlineExceeded] if the deadline had passed first):
    a handler that keeps the decorator cannot write through it later. *)
Theorem decorator_refuses_after_the_request
    (requestTimeout : Z) (f : HandlerWriter -> option dns_Msg -> M unit)
    (opt : list Option) (w : ResponseWriter) (r : option dns_Msg) (s : World)
    (cell : ctxCell) (r' : RespWriter) :
  0 < requestTimeout ->
  isNil w = false ->
  ctxs (snd (f (resp_writer (length (heap s))) r (request_world s requestTimeout w opt)))
    !! length (ctxs s) = Some cell ->
  heap (snd (f (resp_writer (length (heap s))) r (request_world s requestTimeout w opt)))
    !! length (heap s) = Some r' ->
  requestCtx r' = ctx_at (length (ctxs s)) ->
  exists adapter : AdapterFunc,
    NewHandlerFunc requestTimeout (Some f) opt = (Some adapter, None) /\
    let fin := snd (adapter w r s) in
    let e := cause_error (default canceled (ctx_err cell)) in
    forall m b,
      RespWriter_WriteMsg (length (heap s)) m fin = (Val (Some e), fin) /\
      RespWriter_Write (length (heap s)) b fin = (Val (0, Some e), fin) /\
      RespWriter_TsigStatus (length (heap s)) fin = (Val (Some e), fin).
Proof.
  intros Ht Hw Hcell Hheap Hctx.
  destruct (adapter_run requestTimeout f opt w r s Ht Hw) as (adapter & Hnew & Hrun).
  exists adapter. split; [exact Hnew|]. cbv zeta. rewrite Hrun. cbn [snd].
  apply gated_terminated with (r := r'); [exact Hheap|].
  rewrite Hctx. simpl.
  destruct (ctx_err cell) as [c|] eqn:He; simpl.
  - exists cell. split; [|exact He].
    apply cancel_in_terminated; [done | congruence].
  - eexists. split; [by apply cancel_in_live|]. reflexivity.
Qed.

End Traces.

(** ** Instances of the further properties *)

Lemma isNil_what_it_sees_witness :
  isNil_checked (dyn reflect.Struct false tt) = Val false /\
  isNil (dyn reflect.UnsafePointer true tt) = false.
Proof.
  destruct (isNil_never_panics_and_what_it_sees (dyn reflect.Struct false tt))
    as (Hs & _).
  destruct (isNil_never_panics_and_what_it_sees (dyn reflect.UnsafePointer true tt))
    as (_ & _ & Hu).
  split; [exact Hs|].
  apply (Hu reflect.UnsafePointer true tt eq_refl).
  unfold reflect.Ptr. intros H.
  repeat (apply elem_of_cons in H as [H | H]; [discriminate H|]).
  by apply elem_of_nil in H.
Defined.

Lemma NewHandlerFunc_succeeds_witness :
  0 < 100 * millisecond /\
  exists adapter,
    NewHandlerFunc (100 * millisecond) (Some replying_handler) []
    = (Some adapter, None).
Proof.
  assert (Ht : 0 < 100 * millisecond) by (unfold millisecond; lia).
  split; [exact Ht|].
  destruct (NewHandlerFunc_succeeds_iff_valid
              (100 * millisecond) (Some replying_handler) [])
    as ((_ & Hok) & _).
  apply Hok. split; [exact Ht | discriminate].
Defined.

Lemma NewRespWriter_takes_the_last_logger_witness :
  isNil context_Background = false /\
  isNil mock_writer = false /\
  let xs := [Some (Some (logger_at 1)); None; Some (Some (logger_at 2)); Some None] in
  let s' := world_after
              (NewRespWriter context_Background mock_writer (option_of <$> xs))
              (initial tt) in
  RespWriter_Logger 0 s' = (Val (Some (logger_at 2)), s').
Proof.
  assert (Hc : isNil context_Background = false) by reflexivity.
  assert (Hw : isNil mock_writer = false) by reflexivity.
  split; [exact Hc|]. split; [exact Hw|].
  exact (NewRespWriter_takes_the_last_logger (initial tt) context_Background mock_writer
           [Some (Some (logger_at 1)); None; Some (Some (logger_at 2)); Some None]
           Hc Hw).
Defined.

Lemma Write_while_live_witness :
  heap live_world !! 0%nat = Some (mock_decorator context_Background) /\
  live live_world context_Background /\
  RespWriter_Write 0 [Byte.x01; Byte.x02] live_world
  = (Val (0, None), called (CallWrite []) tt live_world).
Proof.
  assert (H1 : heap live_world !! 0%nat = Some (mock_decorator context_Background))
    by reflexivity.
  assert (H2 : live live_world context_Background) by exact I.
  split; [exact H1|]. split; [exact H2|].
  exact (Write_while_live_sends_the_empty_buffer
           live_world 0 (mock_decorator context_Background)
           reflect.Ptr false mockDNSResponseWriter H1 eq_refl H2
           [Byte.x01; Byte.x02]).
Defined.

Lemma after_termination_witness :
  heap cancelled_world !! 0%nat = Some (mock_decorator (ctx_at 0)) /\
  terminated cancelled_world (ctx_at 0) canceled /\
  calls
    (perform_all
       ((fun op => (0%nat, op)) <$>
        [OpWriteMsg None; OpClose; OpWrite [Byte.x01]; OpRemoteAddr; OpTsigStatus])
       cancelled_world)
  = [CallClose; CallRemoteAddr].
Proof.
  assert (H1 : heap cancelled_world !! 0%nat = Some (mock_decorator (ctx_at 0)))
    by reflexivity.
  assert (H2 : terminated cancelled_world (ctx_at 0) canceled)
    by (exists cancelled_cell; split; reflexivity).
  split; [exact H1|]. split; [exact H2|].
  exact (proj1 (after_termination_only_ungated_calls_pass
                  cancelled_world 0 (mock_decorator (ctx_at 0))
                  reflect.Ptr false mockDNSResponseWriter canceled
                  [OpWriteMsg None; OpClose; OpWrite [Byte.x01]; OpRemoteAddr;
                   OpTsigStatus]
                  H1 eq_refl H2)).
Defined.


Lemma decorator_refuses_after_the_request_witness :
  0 < 100 * millisecond /\
  isNil mock_writer = false /\
  exists adapter : AdapterFunc,
    NewHandlerFunc (100 * millisecond) (Some replying_handler) []
    = (Some adapter, None) /\
    let fin := snd (adapter mock_writer None (initial tt)) in
    RespWriter_WriteMsg 0 None fin = (Val (Some context_Canceled), fin).
Proof.
  assert (Ht : 0 < 100 * millisecond) by (unfold millisecond; lia).
  assert (Hw : isNil mock_writer = false) by reflexivity.
  split; [exact Ht|]. split; [exact Hw|].
  destruct (decorator_refuses_after_the_request
              (100 * millisecond) replying_handler [] mock_writer None (initial tt)
              (request_cell (initial tt) (100 * millisecond))
              (request_writer (initial tt) mock_writer [])
              Ht Hw eq_refl eq_refl eq_refl)
    as (adapter & Hnew & Hrefuse).
  exists adapter. split; [exact Hnew|].
  exact (proj1 (Hrefuse None [])).
Defined.
